(** * Composio tool handlers (Gmail and LinkedIn): a shallow embedding

    The handlers of [gmail_tools.py] and [linkedin_tools.py] are glue code
    around three external collaborators: the credential source, the process
    environment and the Composio client.  They are embedded here as functions
    of a [World] (one answer for every external call a handler can make) into
    a small monad that records the external calls in order and ends either in
    a returned value or in a raised exception. *)

From stdpp Require Import gmap strings list fin_maps.
From Stdlib Require Import ZArith Lia Ascii String.

Open Scope string_scope.
Open Scope list_scope.
Open Scope Z_scope.

(** ** Python values *)

Module Py.

(** The JSON-like values that travel between the handlers and the remote
    service.  A [str] is a [string] read one character per code point, an
    [int] is unbounded, a [dict] with string keys is a finite map. *)
#[warnings="-register-all"]
Inductive value : Type :=
| VNone
| VBool (b : bool)
| VInt (n : Z)
| VStr (s : string)
| VList (l : list value)
| VDict (d : gmap string value).

(** [str(e)] is all the handlers ever ask of an exception. *)
Inductive exn : Type := Exn (text : string).

Definition exn_text (e : exn) : string := let 'Exn t := e in t.

Inductive outcome (A : Type) : Type :=
| Return (a : A)
| Raise (e : exn).
Arguments Return {A} a.
Arguments Raise {A} e.

Definition type_name (v : value) : string :=
  match v with
  | VNone => "NoneType"
  | VBool _ => "bool"
  | VInt _ => "int"
  | VStr _ => "str"
  | VList _ => "list"
  | VDict _ => "dict"
  end.

(** [if s:] for a [str]. *)
Definition str_truthy (s : string) : bool :=
  match s with
  | EmptyString => false
  | String _ _ => true
  end.

(** [if o:] for an [Optional[str]]. *)
Definition opt_str_truthy (o : option string) : bool :=
  match o with
  | Some s => str_truthy s
  | None => false
  end.

(** [if d:] for a [dict]. *)
Definition dict_truthy (d : gmap string value) : bool :=
  negb (Nat.eqb (size d) 0).

(** [if o:] for an [Optional[dict]]. *)
Definition opt_dict_truthy (o : option (gmap string value)) : bool :=
  match o with
  | Some d => dict_truthy d
  | None => false
  end.

Definition truthy (v : value) : bool :=
  match v with
  | VNone => false
  | VBool b => b
  | VInt n => negb (Z.eqb n 0)
  | VStr s => str_truthy s
  | VList l => match l with [] => false | _ :: _ => true end
  | VDict d => dict_truthy d
  end.

(** An [Optional[str]] stored in a dict, and inside an f-string. *)
Definition opt_str_value (o : option string) : value :=
  match o with
  | Some s => VStr s
  | None => VNone
  end.

Definition opt_str_format (o : option string) : string :=
  match o with
  | Some s => s
  | None => "None"
  end.

(** [str.lower] on the ASCII letters (the application names are ASCII). *)
Definition ascii_lower (c : ascii) : ascii :=
  let n := nat_of_ascii c in
  if (Nat.leb 65 n && Nat.leb n 90)%bool then ascii_of_nat (n + 32)%nat else c.

Fixpoint lower (s : string) : string :=
  match s with
  | EmptyString => EmptyString
  | String c s' => String (ascii_lower c) (lower s')
  end.

(** [needle in hay] for two [str]. *)
Fixpoint contains (needle hay : string) : bool :=
  match hay with
  | EmptyString => String.prefix needle EmptyString
  | String _ hay' => (String.prefix needle hay || contains needle hay')%bool
  end.

Fixpoint chars (s : string) : list value :=
  match s with
  | EmptyString => []
  | String c s' => VStr (String c EmptyString) :: chars s'
  end.

(** [l[:n]] on a list, with Python's reading of a negative bound. *)
Definition take_upto {A} (n : Z) (l : list A) : list A :=
  if n <? 0 then take (List.length l - Z.to_nat (- n))%nat l else take (Z.to_nat n) l.

Definition AttributeError (v : value) (attr : string) : exn :=
  Exn ("'" +:+ type_name v +:+ "' object has no attribute '" +:+ attr +:+ "'").

Definition not_subscriptable (v : value) : exn :=
  Exn ("'" +:+ type_name v +:+ "' object is not subscriptable").

Definition has_no_len (v : value) : exn :=
  Exn ("object of type '" +:+ type_name v +:+ "' has no len()").

(** [v.get(key, default)]: defined on dicts only. *)
Definition get (v : value) (key : string) (dflt : value) : outcome value :=
  match v with
  | VDict d => Return (default dflt (d !! key))
  | _ => Raise (AttributeError v "get")
  end.

(** [len(v)]. *)
Definition len (v : value) : outcome Z :=
  match v with
  | VStr s => Return (Z.of_nat (String.length s))
  | VList l => Return (Z.of_nat (List.length l))
  | VDict d => Return (Z.of_nat (size d))
  | _ => Raise (has_no_len v)
  end.

(** The items visited by [for x in v[:n]]: a list is cut, a [str] is cut
    and read character by character, a dict cannot be sliced (the text is
    that of CPython before 3.12), the rest cannot be subscripted. *)
Definition slice_items (v : value) (n : Z) : outcome (list value) :=
  match v with
  | VList l => Return (take_upto n l)
  | VStr s => Return (take_upto n (chars s))
  | VDict _ => Raise (Exn "unhashable type: 'slice'")
  | _ => Raise (not_subscriptable v)
  end.

End Py.
Export Py.

Abbreviation envelope := (gmap string value).

(** ** The world outside the handlers *)

(** [credentials.get(name)]: may raise, may find nothing. *)
Record CredentialManager : Type := {
  cm_get : string -> outcome (option string)
}.

(** The client handle, [ComposioToolSet(api_key=...)]. *)
Record ComposioToolSet : Type := { api_key : string }.

Record Entity : Type := { entity_id : string }.

(** What [getattr(connection, "status", None)] reads. *)
Record Connection : Type := { status : option string }.

(** What [getattr(connection_request, "redirectUrl", None)] reads. *)
Record ConnectionRequest : Type := { redirectUrl : option string }.

(** Every external call is made at most once in a handler invocation, so
    one answer per call describes every behaviour of the collaborators. *)
Record World : Type := {
  (* [from composio import ComposioToolSet] succeeds *)
  composio_installed : bool;
  (* the [credentials] argument of [register_tools] *)
  credentials : option CredentialManager;
  (* [os.getenv] *)
  getenv : string -> option string;
  (* the constructor [ComposioToolSet(api_key=...)] *)
  new_toolset : string -> outcome ComposioToolSet;
  (* [client.get_entity(id=...)] *)
  get_entity : ComposioToolSet -> string -> outcome Entity;
  (* [entity.get_connection(app=...)]; [None] is a falsy answer *)
  get_connection : Entity -> string -> outcome (option Connection);
  (* [entity.initiate_connection(app_name=..., redirect_url=...)] *)
  initiate_connection : Entity -> string -> string -> outcome ConnectionRequest;
  (* [from composio import Action], inside the handler's [try] *)
  import_Action : outcome unit;
  (* the attribute [Action.<NAME>] *)
  Action_member : string -> outcome string;
  (* [client.execute_action(action=..., params=...)] *)
  execute_action : ComposioToolSet -> string -> envelope -> outcome value;
  (* the builtin [str] on a value received from the remote service *)
  builtin_str : value -> string
}.

(** ** Calls, in the order they are made *)

(** [EnsureConnection] marks the entry into [_ensure_oauth_connection],
    that is, the handler consulting the Connection Gate; the other events
    are the calls to the collaborators. *)
Inductive event : Type :=
| EnsureConnection (app_name : string)
| CredentialsGet (name : string)
| Getenv (name : string)
| NewToolSet (key : string)
| GetEntity (id : string)
| GetConnection (app : string)
| InitiateConnection (app_name redirect_url : string)
| ExecuteAction (action : string) (params : envelope).

(** The calls that go over the network. *)
Definition is_remote (ev : event) : bool :=
  match ev with
  | GetEntity _ | GetConnection _ | InitiateConnection _ _ | ExecuteAction _ _ => true
  | _ => false
  end.

Definition is_execute (ev : event) : Prop :=
  match ev with
  | ExecuteAction _ _ => True
  | _ => False
  end.

(** ** The monad: a trace of calls, then a value or an exception *)

Definition M (A : Type) : Type := list event * outcome A.

#[global] Instance M_ret : MRet M := fun A a => ([], Return a).

#[global] Instance M_bind : MBind M := fun A B f m =>
  match m with
  | (t, Return a) => let '(t', r) := f a in (t ++ t', r)
  | (t, Raise e) => (t, Raise e)
  end.

(** A step that makes no call. *)
Definition lift {A} (o : outcome A) : M A := ([], o).

(** One external call and its answer. *)
Definition call {A} (ev : event) (o : outcome A) : M A := ([ev], o).

(** [try: m  except Exception as e: h e]. *)
Definition try_except {A} (m : M A) (h : exn -> M A) : M A :=
  match m with
  | (t, Return a) => (t, Return a)
  | (t, Raise e) => let '(t', r) := h e in (t ++ t', r)
  end.

(** [client.<method>] on a handle that may be [None]. *)
Definition method (client : option ComposioToolSet) (name : string) : M ComposioToolSet :=
  match client with
  | Some c => mret c
  | None => lift (Raise (AttributeError VNone name))
  end.

(** ** The Connection Gate

    [gmail_tools.py] and [linkedin_tools.py] each carry their own copy of the
    three functions below; the two copies differ only in the default of
    [app_name], which no caller relies on.  One embedding serves both. *)

Section ConnectionGate.

Variable w : World.

Definition _get_composio_client : M (option ComposioToolSet * option string) :=
  if negb (composio_installed w) then
    mret (None, Some "Composio SDK not installed. Run: pip install composio-core")
  else
    api_key ← match credentials w with
              | Some cm => call (CredentialsGet "composio") (cm_get cm "composio")
              | None => call (Getenv "COMPOSIO_API_KEY") (Return (getenv w "COMPOSIO_API_KEY"))
              end;
    if negb (opt_str_truthy api_key) then
      mret (None, Some "COMPOSIO_API_KEY not set. Get one at https://app.composio.dev/settings")
    else
      let key := default EmptyString api_key in
      client ← call (NewToolSet key) (new_toolset w key);
      mret (Some client, None).

(** The dashboard link of an application. *)
Definition dashboard_url (app_name : string) : string :=
  "https://app.composio.dev/app/" +:+ lower app_name.

(** The result is the tuple [(is_connected, oauth_url, error_message)].  The
    first inner [try] either returns from the function ([Some]) or falls
    through to the initiation of a new authorization ([None]). *)
Definition _check_oauth_connection (client : option ComposioToolSet)
    (app_name : string) (entity_id : string)
  : M (bool * option string * option string) :=
  try_except
    (c ← method client "get_entity";
     entity ← call (GetEntity entity_id) (get_entity w c entity_id);
     returned ← try_except
       (connection ← call (GetConnection app_name) (get_connection w entity app_name);
        match connection with
        | Some conn =>
            match status conn with
            | Some s => if String.eqb s "ACTIVE"
                        then mret (Some (true, None, None))
                        else mret None
            | None => mret (Some (true, None, None))
            end
        | None => mret None
        end)
       (fun _ => mret None);
     match returned with
     | Some r => mret r
     | None =>
         try_except
           (connection_request ←
              call (InitiateConnection app_name "https://app.composio.dev/connections")
                   (initiate_connection w entity app_name
                      "https://app.composio.dev/connections");
            let oauth_url := redirectUrl connection_request in
            if opt_str_truthy oauth_url then mret (false, oauth_url, None)
            else mret (false, Some (dashboard_url app_name), None))
           (fun _ => mret (false, Some (dashboard_url app_name), None))
     end)
    (fun e => mret (false, None,
                    Some ("Failed to check OAuth connection: " +:+ exn_text e))).

(** The result is the tuple [(client, error_response)]. *)
Definition _ensure_oauth_connection (app_name : string)
  : M (option ComposioToolSet * option envelope) :=
  _ ← call (EnsureConnection app_name) (Return tt);
  '(client, error) ← _get_composio_client;
  if opt_str_truthy error then
    mret (None, Some {[ "error" := VStr (default EmptyString error) ]})
  else
    '(is_connected, oauth_url, check_error) ←
       _check_oauth_connection client app_name "default";
    if opt_str_truthy check_error then
      mret (None, Some {[ "error" := VStr (default EmptyString check_error) ]})
    else if negb is_connected then
      mret (None, Some
        {[ "error" := VStr (app_name +:+ " OAuth connection required. Please authorize access.");
           "oauth_required" := VBool true;
           "oauth_url" := opt_str_value oauth_url;
           "message" := VStr ("Please visit the following URL to connect your "
                              +:+ app_name +:+ " account: " +:+ opt_str_format oauth_url) ]})
    else
      mret (client, None).

(** [client, error_response = _ensure_oauth_connection(credentials, app)]
    followed by [if error_response: return error_response], then the rest
    of the handler. *)
Definition after_gate (app_name : string)
    (rest : option ComposioToolSet -> M envelope) : M envelope :=
  '(client, error_response) ← _ensure_oauth_connection app_name;
  if opt_dict_truthy error_response then mret (default ∅ error_response)
  else rest client.

(** [client.execute_action(action=Action.<NAME>, params=...)]: the method is
    looked up first, then the action, then the call is made. *)
Definition client_execute_action (client : option ComposioToolSet)
    (name : string) (params : envelope) : M value :=
  c ← method client "execute_action";
  action ← lift (Action_member w name);
  call (ExecuteAction action params) (execute_action w c action params).

(** [v.get(key, default)] in the monad. *)
Definition vget (v : value) (key : string) (dflt : value) : M value :=
  lift (Py.get v key dflt).

(** [result.get("data", {}).get(key, default)]. *)
Definition data_get (result : value) (key : string) (dflt : value) : M value :=
  data ← vget result "data" (VDict ∅);
  vget data key dflt.

End ConnectionGate.

(** ** gmail_tools.py *)

Module Gmail.

Definition GMAIL_APP_NAME : string := "GMAIL".

Section Tools.

Variable w : World.

Definition gmail_send_email (to subject body cc bcc : string) : M envelope :=
  if negb (str_truthy to) then
    mret {[ "error" := VStr "Recipient email address is required" ]}
  else if negb (str_truthy subject) then
    mret {[ "error" := VStr "Email subject is required" ]}
  else if negb (str_truthy body) then
    mret {[ "error" := VStr "Email body is required" ]}
  else
    after_gate w GMAIL_APP_NAME (fun client =>
      try_except
        (_ ← lift (import_Action w);
         let params : envelope :=
           {[ "to" := VStr to; "subject" := VStr subject; "body" := VStr body ]} in
         let params := if str_truthy cc then <[ "cc" := VStr cc ]> params else params in
         let params := if str_truthy bcc then <[ "bcc" := VStr bcc ]> params else params in
         result ← client_execute_action w client "GMAIL_SEND_EMAIL" params;
         successful ← vget result "successful" VNone;
         if truthy successful then
           message_id ← data_get result "id" VNone;
           thread_id ← data_get result "threadId" VNone;
           mret {[ "success" := VBool true;
                   "message_id" := message_id;
                   "thread_id" := thread_id;
                   "message" := VStr "Email sent successfully" ]}
         else
           err ← vget result "error" (VStr "Failed to send email");
           mret {[ "error" := err ]})
        (fun e => mret {[ "error" := VStr ("Gmail send failed: " +:+ exn_text e) ]})).

(** One entry of the [emails] list of [gmail_read_emails]. *)
Definition read_entry (msg : value) : M value :=
  id ← vget msg "id" VNone;
  thread_id ← vget msg "threadId" VNone;
  from ← vget msg "from" VNone;
  to ← vget msg "to" VNone;
  subject ← vget msg "subject" VNone;
  snippet ← vget msg "snippet" VNone;
  date ← vget msg "date" VNone;
  is_unread ← vget msg "isUnread" (VBool false);
  mret (VDict {[ "id" := id; "thread_id" := thread_id; "from" := from; "to" := to;
                 "subject" := subject; "snippet" := snippet; "date" := date;
                 "is_unread" := is_unread ]}).

Definition gmail_read_emails (max_results : Z) (label : string) (unread_only : bool)
  : M envelope :=
  let max_results := Z.max 1 (Z.min 100 max_results) in
  after_gate w GMAIL_APP_NAME (fun client =>
    try_except
      (_ ← lift (import_Action w);
       let params : envelope :=
         {[ "max_results" := VInt max_results; "label_ids" := VList [VStr label] ]} in
       let params := if unread_only then <[ "query" := VStr "is:unread" ]> params
                     else params in
       result ← client_execute_action w client "GMAIL_FETCH_EMAILS" params;
       successful ← vget result "successful" VNone;
       if truthy successful then
         messages ← data_get result "messages" (VList []);
         items ← lift (slice_items messages max_results);
         emails ← mapM read_entry items;
         total ← lift (len messages);
         mret {[ "success" := VBool true;
                 "emails" := VList emails;
                 "total" := VInt total ]}
       else
         err ← vget result "error" (VStr "Failed to fetch emails");
         mret {[ "error" := err ]})
      (fun e => mret {[ "error" := VStr ("Gmail read failed: " +:+ exn_text e) ]})).

(** One entry of the [results] list of [gmail_search_emails]. *)
Definition search_entry (msg : value) : M value :=
  id ← vget msg "id" VNone;
  thread_id ← vget msg "threadId" VNone;
  from ← vget msg "from" VNone;
  to ← vget msg "to" VNone;
  subject ← vget msg "subject" VNone;
  snippet ← vget msg "snippet" VNone;
  date ← vget msg "date" VNone;
  mret (VDict {[ "id" := id; "thread_id" := thread_id; "from" := from; "to" := to;
                 "subject" := subject; "snippet" := snippet; "date" := date ]}).

Definition gmail_search_emails (query : string) (max_results : Z) : M envelope :=
  if negb (str_truthy query) then
    mret {[ "error" := VStr "Search query is required" ]}
  else
    let max_results := Z.max 1 (Z.min 100 max_results) in
    after_gate w GMAIL_APP_NAME (fun client =>
      try_except
        (_ ← lift (import_Action w);
         result ← client_execute_action w client "GMAIL_FETCH_EMAILS"
                    {[ "query" := VStr query; "max_results" := VInt max_results ]};
         successful ← vget result "successful" VNone;
         if truthy successful then
           messages ← data_get result "messages" (VList []);
           items ← lift (slice_items messages max_results);
           results ← mapM search_entry items;
           total ← lift (len messages);
           mret {[ "success" := VBool true;
                   "results" := VList results;
                   "total" := VInt total;
                   "query" := VStr query ]}
         else
           err ← vget result "error" (VStr "Failed to search emails");
           mret {[ "error" := err ]})
        (fun e => mret {[ "error" := VStr ("Gmail search failed: " +:+ exn_text e) ]})).

Definition gmail_create_draft (to subject body cc bcc : string) : M envelope :=
  if negb (str_truthy to) then
    mret {[ "error" := VStr "Recipient email address is required" ]}
  else if negb (str_truthy subject) then
    mret {[ "error" := VStr "Email subject is required" ]}
  else
    after_gate w GMAIL_APP_NAME (fun client =>
      try_except
        (_ ← lift (import_Action w);
         let params : envelope :=
           {[ "to" := VStr to; "subject" := VStr subject;
              "body" := VStr (if str_truthy body then body else EmptyString) ]} in
         let params := if str_truthy cc then <[ "cc" := VStr cc ]> params else params in
         let params := if str_truthy bcc then <[ "bcc" := VStr bcc ]> params else params in
         result ← client_execute_action w client "GMAIL_CREATE_EMAIL_DRAFT" params;
         successful ← vget result "successful" VNone;
         if truthy successful then
           draft_id ← data_get result "id" VNone;
           mret {[ "success" := VBool true;
                   "draft_id" := draft_id;
                   "message" := VStr "Draft created successfully" ]}
         else
           err ← vget result "error" (VStr "Failed to create draft");
           mret {[ "error" := err ]})
        (fun e => mret {[ "error" := VStr ("Gmail draft creation failed: " +:+ exn_text e) ]})).

End Tools.

End Gmail.

(** ** linkedin_tools.py *)

Module LinkedIn.

Definition LINKEDIN_APP_NAME : string := "LINKEDIN".

(** [x in [a, b, ...]] for strings. *)
Definition str_in (x : string) (l : list string) : bool :=
  existsb (String.eqb x) l.

(** The object [linkedin_get_profile] returns. *)
Definition mock_profile : envelope :=
  {[ "success" := VBool true;
     "profile" := VDict
       {[ "id" := VStr "mock-profile-123";
          "first_name" := VStr "Richard";
          "last_name" := VStr "Tang";
          "full_name" := VStr "Richard Tang";
          "headline" := VStr "CEO & Founder at Aden | Building AI-powered solutions";
          "summary" := VStr "Experienced tech entrepreneur focused on AI and automation. Previously founded multiple startups in the B2B space.";
          "profile_url" := VStr "https://www.linkedin.com/in/richardtang";
          "location" := VStr "San Francisco, CA";
          "current_company" := VStr "Aden" ]} ]}.

Section Tools.

Variable w : World.

Definition linkedin_create_post (text visibility : string) : M envelope :=
  if (negb (str_truthy text) || (3000 <? Z.of_nat (String.length text)))%bool then
    mret {[ "error" := VStr "Post text must be 1-3000 characters" ]}
  else
    let visibility :=
      if negb (str_in visibility ["PUBLIC"; "CONNECTIONS"; "LOGGED_IN"])
      then "PUBLIC" else visibility in
    after_gate w LINKEDIN_APP_NAME (fun client =>
      try_except
        (_ ← lift (import_Action w);
         result ← client_execute_action w client "LINKEDIN_CREATE_LINKED_IN_POST"
                    {[ "text" := VStr text; "visibility" := VStr visibility ]};
         successful ← vget result "successful" VNone;
         if truthy successful then
           post_id ← data_get result "id" VNone;
           mret {[ "success" := VBool true;
                   "post_id" := post_id;
                   "message" := VStr "Post created successfully" ]}
         else
           err ← vget result "error" (VStr "Failed to create post");
           mret {[ "error" := err ]})
        (fun e => mret {[ "error" := VStr ("LinkedIn post failed: " +:+ exn_text e) ]})).

Definition linkedin_get_profile (profile_id : string) : M envelope :=
  mret mock_profile.

(** The [orgs] of [linkedin_get_company], read off the [data] payload. *)
Definition company_orgs (data : value) : value :=
  match data with
  | VDict d =>
      match d !! "elements" with
      | Some elements => elements
      | None => if truthy data then VList [data] else VList []
      end
  | VList _ => data
  | _ => if truthy data then VList [data] else VList []
  end.

Definition linkedin_get_company (role : string) : M envelope :=
  let role :=
    if negb (str_in role ["ADMINISTRATOR"; "DIRECT_SPONSORED_CONTENT_POSTER"])
    then "ADMINISTRATOR" else role in
  after_gate w LINKEDIN_APP_NAME (fun client =>
    try_except
      (_ ← lift (import_Action w);
       result ← client_execute_action w client "LINKEDIN_GET_COMPANY_INFO"
                  {[ "role" := VStr role; "state" := VStr "APPROVED"; "count" := VInt 100 ]};
       successful ← vget result "successful" VNone;
       if truthy successful then
         data ← vget result "data" (VDict ∅);
         let orgs := company_orgs data in
         count ← lift (len orgs);
         mret {[ "success" := VBool true;
                 "organizations" := orgs;
                 "count" := VInt count ]}
       else
         error_msg ← vget result "error" (VStr "Failed to get company info");
         if (contains "403" (builtin_str w error_msg)
             || contains "Forbidden" (builtin_str w error_msg))%bool then
           mret {[ "error" := VStr "Permission denied. You may not have admin access to any LinkedIn company pages.";
                   "suggestion" := VStr "Ensure you have ADMINISTRATOR or DIRECT_SPONSORED_CONTENT_POSTER role on a company page." ]}
         else
           mret {[ "error" := error_msg ]})
      (fun e => mret {[ "error" := VStr ("LinkedIn company fetch failed: " +:+ exn_text e) ]})).

(** One entry of the [results] list of [linkedin_search_people]. *)
Definition people_entry (p : value) : M value :=
  name ← vget p "name" VNone;
  headline ← vget p "headline" VNone;
  profile_url ← vget p "profileUrl" VNone;
  mret (VDict {[ "name" := name; "headline" := headline; "profile_url" := profile_url ]}).

Definition linkedin_search_people (keywords : string) (limit : Z) : M envelope :=
  if negb (str_truthy keywords) then
    mret {[ "error" := VStr "Keywords are required" ]}
  else
    let limit := Z.max 1 (Z.min 50 limit) in
    after_gate w LINKEDIN_APP_NAME (fun client =>
      try_except
        (_ ← lift (import_Action w);
         result ← client_execute_action w client "LINKEDIN_SEARCH_PEOPLE"
                    {[ "keywords" := VStr keywords; "limit" := VInt limit ]};
         successful ← vget result "successful" VNone;
         if truthy successful then
           people ← data_get result "elements" (VList []);
           items ← lift (slice_items people limit);
           results ← mapM people_entry items;
           total ← lift (len people);
           mret {[ "success" := VBool true;
                   "results" := VList results;
                   "total" := VInt total ]}
         else
           err ← vget result "error" (VStr "Failed to search people");
           mret {[ "error" := err ]})
        (fun e => mret {[ "error" := VStr ("LinkedIn search failed: " +:+ exn_text e) ]})).

Definition linkedin_send_message (recipient_id message : string) : M envelope :=
  if negb (str_truthy recipient_id) then
    mret {[ "error" := VStr "Recipient ID is required" ]}
  else if (negb (str_truthy message) || (8000 <? Z.of_nat (String.length message)))%bool then
    mret {[ "error" := VStr "Message must be 1-8000 characters" ]}
  else
    after_gate w LINKEDIN_APP_NAME (fun client =>
      try_except
        (_ ← lift (import_Action w);
         result ← client_execute_action w client "LINKEDIN_SEND_MESSAGE"
                    {[ "recipient_id" := VStr recipient_id; "message" := VStr message ]};
         successful ← vget result "successful" VNone;
         if truthy successful then
           message_id ← data_get result "id" VNone;
           mret {[ "success" := VBool true;
                   "message_id" := message_id;
                   "message" := VStr "Message sent successfully" ]}
         else
           err ← vget result "error" (VStr "Failed to send message");
           mret {[ "error" := err ]})
        (fun e => mret {[ "error" := VStr ("LinkedIn message failed: " +:+ exn_text e) ]})).

End Tools.

End LinkedIn.

(** ** The tool surface *)

(** One invocation of a registered tool, with its arguments. *)
Inductive tool_call : Type :=
| GmailSendEmail (to subject body cc bcc : string)
| GmailReadEmails (max_results : Z) (label : string) (unread_only : bool)
| GmailSearchEmails (query : string) (max_results : Z)
| GmailCreateDraft (to subject body cc bcc : string)
| LinkedinCreatePost (text visibility : string)
| LinkedinGetProfile (profile_id : string)
| LinkedinGetCompany (role : string)
| LinkedinSearchPeople (keywords : string) (limit : Z)
| LinkedinSendMessage (recipient_id message : string).

(** The hosting runtime routes an invocation to its handler. *)
Definition invoke (w : World) (c : tool_call) : M envelope :=
  match c with
  | GmailSendEmail to subject body cc bcc => Gmail.gmail_send_email w to subject body cc bcc
  | GmailReadEmails n label unread => Gmail.gmail_read_emails w n label unread
  | GmailSearchEmails query n => Gmail.gmail_search_emails w query n
  | GmailCreateDraft to subject body cc bcc => Gmail.gmail_create_draft w to subject body cc bcc
  | LinkedinCreatePost text visibility => LinkedIn.linkedin_create_post w text visibility
  | LinkedinGetProfile profile_id => LinkedIn.linkedin_get_profile profile_id
  | LinkedinGetCompany role => LinkedIn.linkedin_get_company w role
  | LinkedinSearchPeople keywords limit => LinkedIn.linkedin_search_people w keywords limit
  | LinkedinSendMessage recipient_id message => LinkedIn.linkedin_send_message w recipient_id message
  end.

(** The application a tool asks the Connection Gate about; [None] for the
    one tool that has no gate in its body. *)
Definition app_of (c : tool_call) : option string :=
  match c with
  | GmailSendEmail _ _ _ _ _ | GmailReadEmails _ _ _
  | GmailSearchEmails _ _ | GmailCreateDraft _ _ _ _ _ => Some Gmail.GMAIL_APP_NAME
  | LinkedinGetProfile _ => None
  | _ => Some LinkedIn.LINKEDIN_APP_NAME
  end.

(** ** Vocabulary of the properties *)

Definition trace {A} (m : M A) : list event := m.1.

Definition result {A} (m : M A) : outcome A := m.2.

(** Every call [m] makes satisfies [P]. *)
Definition emits {A} (P : event -> Prop) (m : M A) : Prop := Forall P (trace m).

(** [m] ends in a returned value, not in an exception. *)
Definition returns {A} (m : M A) : Prop := exists a, result m = Return a.

(** Whatever [m] returns satisfies [Q]. *)
Definition yields {A} (Q : A -> Prop) (m : M A) : Prop :=
  forall a, result m = Return a -> Q a.

(** The calls the Connection Gate can make for [app_name]. *)
Definition is_gate_event (app_name : string) (ev : event) : Prop :=
  match ev with
  | ExecuteAction _ _ => False
  | EnsureConnection a => a = app_name
  | _ => True
  end.

(** The three reports of the connection check, as the docstring of
    [_check_oauth_connection] lists them. *)
Inductive ConnectionStatus : Type :=
| connected
| not_connected (oauth_url : string)
| check_failed (error_message : string).

Definition reports (r : bool * option string * option string) (s : ConnectionStatus) : Prop :=
  match s with
  | connected => r = (true, None, None)
  | not_connected u => r = (false, Some u, None)
  | check_failed msg => r = (false, None, Some msg)
  end.

(** The two envelopes the gate builds. *)
Definition error_envelope (msg : string) : envelope := {[ "error" := VStr msg ]}.

Definition oauth_envelope (app_name : string) (oauth_url : option string) : envelope :=
  {[ "error" := VStr (app_name +:+ " OAuth connection required. Please authorize access.");
     "oauth_required" := VBool true;
     "oauth_url" := opt_str_value oauth_url;
     "message" := VStr ("Please visit the following URL to connect your "
                        +:+ app_name +:+ " account: " +:+ opt_str_format oauth_url) ]}.

(** The four ways [_ensure_oauth_connection] returns. *)
Inductive gate_case (w : World) (app_name : string)
  : option ComposioToolSet -> option envelope -> Prop :=
| gate_connected ts :
    result (_get_composio_client w) = Return (Some ts, None) ->
    result (_check_oauth_connection w (Some ts) app_name "default")
      = Return (true, None, None) ->
    gate_case w app_name (Some ts) None
| gate_no_client msg :
    result (_get_composio_client w) = Return (None, Some msg) ->
    msg <> EmptyString ->
    Forall (fun ev => is_remote ev = false) (trace (_ensure_oauth_connection w app_name)) ->
    gate_case w app_name None (Some (error_envelope msg))
| gate_check_failed ts msg :
    result (_get_composio_client w) = Return (Some ts, None) ->
    result (_check_oauth_connection w (Some ts) app_name "default")
      = Return (false, None, Some msg) ->
    msg <> EmptyString ->
    gate_case w app_name None (Some (error_envelope msg))
| gate_not_connected ts u :
    result (_get_composio_client w) = Return (Some ts, None) ->
    result (_check_oauth_connection w (Some ts) app_name "default")
      = Return (false, Some u, None) ->
    u <> EmptyString ->
    gate_case w app_name None (Some (oauth_envelope app_name (Some u))).

(** The two ways a handler is built: it answers at once, without a call,
    or it hands over to the gate and then to a guarded remote action. *)
Inductive handler_shape (w : World) (c : tool_call) : Prop :=
| shape_immediate env :
    invoke w c = ([], Return env) ->
    env !! "oauth_required" = None ->
    (app_of c <> None -> exists s, env !! "error" = Some (VStr s)) ->
    handler_shape w c
| shape_gated app rest :
    app_of c = Some app ->
    invoke w c = after_gate w app rest ->
    (forall client, returns (rest client)) ->
    (forall client, emits is_execute (rest client)) ->
    (forall client, yields (fun env => env !! "oauth_required" = None) (rest client)) ->
    handler_shape w c.

(** What the lookup of the connection record found: a raising lookup
    found nothing. *)
Definition found (answer : outcome (option Connection)) : option Connection :=
  match answer with
  | Return connection => connection
  | Raise _ => None
  end.

(** The "active" of the specification: a record exists and its status is
    the active marker or absent. *)
Definition spec_active (connection : option Connection) : bool :=
  match connection with
  | Some conn =>
      match status conn with
      | Some s => String.eqb s "ACTIVE"
      | None => true
      end
  | None => false
  end.

(** The clamp of the specification: into the range 1 to 100. *)
Definition spec_clamp (n : Z) : Z :=
  if n <? 1 then 1 else if 100 <? n then 100 else n.

(** A post of [n] characters. *)
Definition post_of_length (n : nat) : string := string_of_list_ascii (repeat "a"%char n).

(** ** Sample worlds *)

Module Sample.

(** [str] on the values the sample service sends. *)
Definition sample_str (v : value) : string :=
  match v with
  | VStr s => s
  | VNone => "None"
  | VBool true => "True"
  | VBool false => "False"
  | _ => EmptyString
  end.

(** A credential store that knows the key. *)
Definition key_store : CredentialManager :=
  {| cm_get := fun name =>
       if String.eqb name "composio" then Return (Some "sk-test") else Return None |}.

(** A credential store built without the [composio] entry: [get] raises. *)
Definition raising_store : CredentialManager :=
  {| cm_get := fun name => Raise (Exn ("Unknown credential '" +:+ name +:+ "'")) |}.

Definition make_world (creds : option CredentialManager) (env_key : option string)
    (entity : outcome Entity) (connection : outcome (option Connection))
    (request : outcome ConnectionRequest) (answer : outcome value) : World :=
  {| composio_installed := true;
     credentials := creds;
     getenv := fun name => if String.eqb name "COMPOSIO_API_KEY" then env_key else None;
     new_toolset := fun key => Return {| api_key := key |};
     get_entity := fun _ _ => entity;
     get_connection := fun _ _ => connection;
     initiate_connection := fun _ _ _ => request;
     import_Action := Return tt;
     Action_member := fun name => Return name;
     execute_action := fun _ _ _ => answer;
     builtin_str := sample_str |}.

Definition sent : value :=
  VDict {[ "successful" := VBool true; "data" := VDict {[ "id" := VStr "abc123" ]} ]}.

Definition inbox : value :=
  VDict {[ "successful" := VBool true;
           "data" := VDict {[ "messages" := VList
              [ VDict {[ "id" := VStr "m1" ]}; VDict {[ "id" := VStr "m2" ]};
                VDict {[ "id" := VStr "m3" ]} ] ]} ]}.

Definition default_entity : Entity := {| entity_id := "default" |}.

Definition redirect : ConnectionRequest :=
  {| redirectUrl := Some "https://backend.composio.dev/s/abc" |}.

Definition world_connected (answer : value) : World :=
  make_world (Some key_store) None (Return default_entity)
    (Return (Some {| status := Some "ACTIVE" |})) (Return redirect) (Return answer).

Definition world_not_connected : World :=
  make_world (Some key_store) None (Return default_entity)
    (Return (Some {| status := Some "INITIATED" |})) (Return redirect) (Return sent).

Definition world_check_fails : World :=
  make_world (Some key_store) None (Raise (Exn "503 Service Unavailable"))
    (Return None) (Return redirect) (Return sent).

Definition world_no_credential : World :=
  make_world None None (Return default_entity)
    (Return (Some {| status := Some "ACTIVE" |})) (Return redirect) (Return sent).

Definition world_credentials_raise : World :=
  make_world (Some raising_store) None (Return default_entity)
    (Return (Some {| status := Some "ACTIVE" |})) (Return redirect) (Return sent).

Definition world_expired : World :=
  make_world (Some key_store) None (Return default_entity)
    (Return (Some {| status := Some "EXPIRED" |})) (Return redirect) (Return sent).

(** A world whose client cannot be constructed. *)
Definition world_constructor_raises : World :=
  {| composio_installed := true;
     credentials := Some key_store;
     getenv := fun _ => None;
     new_toolset := fun _ => Raise (Exn "Invalid API key");
     get_entity := fun _ _ => Return default_entity;
     get_connection := fun _ _ => Return (Some {| status := Some "ACTIVE" |});
     initiate_connection := fun _ _ _ => Return redirect;
     import_Action := Return tt;
     Action_member := fun name => Return name;
     execute_action := fun _ _ _ => Return sent;
     builtin_str := sample_str |}.

End Sample.

(** * Further definitions: the handlers as tables, registration, credentials *)

(** ** What each handler does, read off its body *)

(** The name under which the tool is registered. *)
Definition tool_name (c : tool_call) : string :=
  match c with
  | GmailSendEmail _ _ _ _ _ => "gmail_send_email"
  | GmailReadEmails _ _ _ => "gmail_read_emails"
  | GmailSearchEmails _ _ => "gmail_search_emails"
  | GmailCreateDraft _ _ _ _ _ => "gmail_create_draft"
  | LinkedinCreatePost _ _ => "linkedin_create_post"
  | LinkedinGetProfile _ => "linkedin_get_profile"
  | LinkedinGetCompany _ => "linkedin_get_company"
  | LinkedinSearchPeople _ _ => "linkedin_search_people"
  | LinkedinSendMessage _ _ => "linkedin_send_message"
  end.

(** The message of the validation that rejects the arguments, if one does. *)
Definition validation_error (c : tool_call) : option string :=
  match c with
  | GmailSendEmail to subject body _ _ =>
      if negb (str_truthy to) then Some "Recipient email address is required"
      else if negb (str_truthy subject) then Some "Email subject is required"
      else if negb (str_truthy body) then Some "Email body is required"
      else None
  | GmailReadEmails _ _ _ => None
  | GmailSearchEmails query _ =>
      if negb (str_truthy query) then Some "Search query is required" else None
  | GmailCreateDraft to subject _ _ _ =>
      if negb (str_truthy to) then Some "Recipient email address is required"
      else if negb (str_truthy subject) then Some "Email subject is required"
      else None
  | LinkedinCreatePost text _ =>
      if (negb (str_truthy text) || (3000 <? Z.of_nat (String.length text)))%bool
      then Some "Post text must be 1-3000 characters" else None
  | LinkedinGetProfile _ => None
  | LinkedinGetCompany _ => None
  | LinkedinSearchPeople keywords _ =>
      if negb (str_truthy keywords) then Some "Keywords are required" else None
  | LinkedinSendMessage recipient_id message =>
      if negb (str_truthy recipient_id) then Some "Recipient ID is required"
      else if (negb (str_truthy message) || (8000 <? Z.of_nat (String.length message)))%bool
      then Some "Message must be 1-8000 characters" else None
  end.

(** The member of [Action] the handler executes. *)
Definition action_name (c : tool_call) : option string :=
  match c with
  | GmailSendEmail _ _ _ _ _ => Some "GMAIL_SEND_EMAIL"
  | GmailReadEmails _ _ _ => Some "GMAIL_FETCH_EMAILS"
  | GmailSearchEmails _ _ => Some "GMAIL_FETCH_EMAILS"
  | GmailCreateDraft _ _ _ _ _ => Some "GMAIL_CREATE_EMAIL_DRAFT"
  | LinkedinCreatePost _ _ => Some "LINKEDIN_CREATE_LINKED_IN_POST"
  | LinkedinGetProfile _ => None
  | LinkedinGetCompany _ => Some "LINKEDIN_GET_COMPANY_INFO"
  | LinkedinSearchPeople _ _ => Some "LINKEDIN_SEARCH_PEOPLE"
  | LinkedinSendMessage _ _ => Some "LINKEDIN_SEND_MESSAGE"
  end.

(** The [params] the handler passes to [execute_action]. *)
Definition action_params (c : tool_call) : envelope :=
  match c with
  | GmailSendEmail to subject body cc bcc =>
      let params : envelope :=
        {[ "to" := VStr to; "subject" := VStr subject; "body" := VStr body ]} in
      let params := if str_truthy cc then <[ "cc" := VStr cc ]> params else params in
      let params := if str_truthy bcc then <[ "bcc" := VStr bcc ]> params else params in
      params
  | GmailReadEmails max_results label unread_only =>
      let max_results := Z.max 1 (Z.min 100 max_results) in
      let params : envelope :=
        {[ "max_results" := VInt max_results; "label_ids" := VList [VStr label] ]} in
      let params := if unread_only then <[ "query" := VStr "is:unread" ]> params
                    else params in
      params
  | GmailSearchEmails query max_results =>
      let max_results := Z.max 1 (Z.min 100 max_results) in
      {[ "query" := VStr query; "max_results" := VInt max_results ]}
  | GmailCreateDraft to subject body cc bcc =>
      let params : envelope :=
        {[ "to" := VStr to; "subject" := VStr subject;
           "body" := VStr (if str_truthy body then body else EmptyString) ]} in
      let params := if str_truthy cc then <[ "cc" := VStr cc ]> params else params in
      let params := if str_truthy bcc then <[ "bcc" := VStr bcc ]> params else params in
      params
  | LinkedinCreatePost text visibility =>
      let visibility :=
        if negb (LinkedIn.str_in visibility ["PUBLIC"; "CONNECTIONS"; "LOGGED_IN"])
        then "PUBLIC" else visibility in
      {[ "text" := VStr text; "visibility" := VStr visibility ]}
  | LinkedinGetProfile _ => ∅
  | LinkedinGetCompany role =>
      let role :=
        if negb (LinkedIn.str_in role ["ADMINISTRATOR"; "DIRECT_SPONSORED_CONTENT_POSTER"])
        then "ADMINISTRATOR" else role in
      {[ "role" := VStr role; "state" := VStr "APPROVED"; "count" := VInt 100 ]}
  | LinkedinSearchPeople keywords limit =>
      let limit := Z.max 1 (Z.min 50 limit) in
      {[ "keywords" := VStr keywords; "limit" := VInt limit ]}
  | LinkedinSendMessage recipient_id message =>
      {[ "recipient_id" := VStr recipient_id; "message" := VStr message ]}
  end.

(** The prefix of the error text when the [try] block raises. *)
Definition failure_prefix (c : tool_call) : string :=
  match c with
  | GmailSendEmail _ _ _ _ _ => "Gmail send failed: "
  | GmailReadEmails _ _ _ => "Gmail read failed: "
  | GmailSearchEmails _ _ => "Gmail search failed: "
  | GmailCreateDraft _ _ _ _ _ => "Gmail draft creation failed: "
  | LinkedinCreatePost _ _ => "LinkedIn post failed: "
  | LinkedinGetProfile _ => EmptyString
  | LinkedinGetCompany _ => "LinkedIn company fetch failed: "
  | LinkedinSearchPeople _ _ => "LinkedIn search failed: "
  | LinkedinSendMessage _ _ => "LinkedIn message failed: "
  end.

(** The error text when the remote answer reports failure without one. *)
Definition fallback_error (c : tool_call) : string :=
  match c with
  | GmailSendEmail _ _ _ _ _ => "Failed to send email"
  | GmailReadEmails _ _ _ => "Failed to fetch emails"
  | GmailSearchEmails _ _ => "Failed to search emails"
  | GmailCreateDraft _ _ _ _ _ => "Failed to create draft"
  | LinkedinCreatePost _ _ => "Failed to create post"
  | LinkedinGetProfile _ => EmptyString
  | LinkedinGetCompany _ => "Failed to get company info"
  | LinkedinSearchPeople _ _ => "Failed to search people"
  | LinkedinSendMessage _ _ => "Failed to send message"
  end.

(** The envelope for a remote answer [d] whose [successful] is falsy. *)
Definition remote_failure_envelope (w : World) (c : tool_call) (d : envelope) : envelope :=
  let error_msg := default (VStr (fallback_error c)) (d !! "error") in
  match c with
  | LinkedinGetCompany _ =>
      if (contains "403" (builtin_str w error_msg)
          || contains "Forbidden" (builtin_str w error_msg))%bool then
        {[ "error" := VStr "Permission denied. You may not have admin access to any LinkedIn company pages.";
           "suggestion" := VStr "Ensure you have ADMINISTRATOR or DIRECT_SPONSORED_CONTENT_POSTER role on a company page." ]}
      else {[ "error" := error_msg ]}
  | _ => {[ "error" := error_msg ]}
  end.

(** An envelope is a success or an error, not both. *)
Definition well_shaped (env : envelope) : Prop :=
  (env !! "success" = Some (VBool true) /\ env !! "error" = None)
  \/ (env !! "success" = None /\ is_Some (env !! "error")).

(** The guarded block every gated handler ends with: import [Action],
    execute one action, read the answer with [k]; whatever is raised on the
    way becomes an error envelope with the handler's prefix. *)
Definition guarded (w : World) (name : string) (params : envelope) (prefix : string)
    (k : value -> M envelope) (client : option ComposioToolSet) : M envelope :=
  try_except
    (_ ← lift (import_Action w);
     answer ← client_execute_action w client name params;
     k answer)
    (fun e => mret {[ "error" := VStr (prefix +:+ exn_text e) ]}).

(** The three ways a handler runs: its validation rejects the arguments;
    it answers with a constant; or it passes the gate and runs one guarded
    remote action whose answer [k] reads without a further call. *)
Inductive handler_form (w : World) (c : tool_call) : Prop :=
| form_rejected msg :
    validation_error c = Some msg ->
    invoke w c = ([], Return {[ "error" := VStr msg ]}) ->
    handler_form w c
| form_constant env :
    validation_error c = None ->
    app_of c = None ->
    invoke w c = ([], Return env) ->
    well_shaped env ->
    handler_form w c
| form_gated app name (k : value -> M envelope) :
    validation_error c = None ->
    app_of c = Some app ->
    action_name c = Some name ->
    invoke w c = after_gate w app (guarded w name (action_params c) (failure_prefix c) k) ->
    (forall v, emits (fun _ => False) (k v)) ->
    (forall v, yields well_shaped (k v)) ->
    (forall d, truthy (default VNone (d !! "successful")) = false ->
               k (VDict d) = mret (remote_failure_envelope w c d)) ->
    (forall v, (forall d, v <> VDict d) -> k v = lift (Raise (AttributeError v "get"))) ->
    handler_form w c.

(** ** Registration: composio_tools/__init__.py *)

(** The server, as far as registration goes: the names of its tools, in
    the order they were registered.  [@mcp.tool()] registers the decorated
    function under its own name. *)
Definition mcp_tool (name : string) (mcp : list string) : list string := mcp ++ [name].

(** [register_tools] of linkedin_tools.py, the decorators in source order. *)
Definition register_linkedin_tools (mcp : list string) : list string :=
  let mcp := mcp_tool "linkedin_create_post" mcp in
  let mcp := mcp_tool "linkedin_get_profile" mcp in
  let mcp := mcp_tool "linkedin_get_company" mcp in
  let mcp := mcp_tool "linkedin_search_people" mcp in
  let mcp := mcp_tool "linkedin_send_message" mcp in
  mcp.

(** [register_tools] of gmail_tools.py. *)
Definition register_gmail_tools (mcp : list string) : list string :=
  let mcp := mcp_tool "gmail_send_email" mcp in
  let mcp := mcp_tool "gmail_read_emails" mcp in
  let mcp := mcp_tool "gmail_search_emails" mcp in
  let mcp := mcp_tool "gmail_create_draft" mcp in
  mcp.

(** [register_tools] of the package: the server afterwards, and the list
    of names it returns. *)
Definition register_tools (mcp : list string) : list string * list string :=
  let mcp := register_linkedin_tools mcp in
  let mcp := register_gmail_tools mcp in
  (mcp,
   [ "linkedin_create_post"; "linkedin_get_profile"; "linkedin_search_people";
     "linkedin_send_message";
     "gmail_send_email"; "gmail_read_emails"; "gmail_search_emails";
     "gmail_create_draft" ]).

(** ** credentials/composio.py *)

(** The class [CredentialSpec] is declared in credentials/base.py, outside
    the sources at hand; the record has the fields the constructor call
    names. *)
Record CredentialSpec : Type := {
  env_var : string;
  tools : list string;
  node_types : list string;
  required : bool;
  startup_required : bool;
  help_url : string;
  description : string
}.

Definition COMPOSIO_CREDENTIALS : gmap string CredentialSpec :=
  {[ "composio" :=
       {| env_var := "COMPOSIO_API_KEY";
          tools := [ "linkedin_create_post"; "linkedin_get_profile";
                     "linkedin_search_people"; "linkedin_send_message";
                     "gmail_send_email"; "gmail_read_emails"; "gmail_search_emails";
                     "gmail_create_draft" ];
          node_types := [];
          required := true;
          startup_required := false;
          help_url := "https://app.composio.dev/settings";
          description := "API key for Composio (enables LinkedIn, Gmail, and other integrations)" |} ]}.

(** The lookup [_get_composio_client] makes for the key. *)
Definition lookup_event (w : World) : event :=
  match credentials w with
  | Some _ => CredentialsGet "composio"
  | None => Getenv "COMPOSIO_API_KEY"
  end.

(** The answer of that lookup. *)
Definition resolve_key (w : World) : outcome (option string) :=
  match credentials w with
  | Some cm => cm_get cm "composio"
  | None => Return (getenv w "COMPOSIO_API_KEY")
  end.

Definition is_executeb (ev : event) : bool :=
  match ev with
  | ExecuteAction _ _ => true
  | _ => false
  end.

(** ** The entries of the listings, as values *)

Definition field_of (msg : envelope) (key : string) : value := default VNone (msg !! key).

(** What [read_entry] builds from a message. *)
Definition read_item (msg : envelope) : value :=
  VDict {[ "id" := field_of msg "id"; "thread_id" := field_of msg "threadId";
           "from" := field_of msg "from"; "to" := field_of msg "to";
           "subject" := field_of msg "subject"; "snippet" := field_of msg "snippet";
           "date" := field_of msg "date";
           "is_unread" := default (VBool false) (msg !! "isUnread") ]}.

(** What [search_entry] builds from a message. *)
Definition search_item (msg : envelope) : value :=
  VDict {[ "id" := field_of msg "id"; "thread_id" := field_of msg "threadId";
           "from" := field_of msg "from"; "to" := field_of msg "to";
           "subject" := field_of msg "subject"; "snippet" := field_of msg "snippet";
           "date" := field_of msg "date" ]}.

(** What [people_entry] builds from a person. *)
Definition people_item (p : envelope) : value :=
  VDict {[ "name" := field_of p "name"; "headline" := field_of p "headline";
           "profile_url" := field_of p "profileUrl" ]}.

(** The key under which a handler returns the remote [id], and the note
    it adds, for the three handlers whose success is just that. *)
Definition id_reply (c : tool_call) : option (string * string) :=
  match c with
  | GmailCreateDraft _ _ _ _ _ => Some ("draft_id", "Draft created successfully")
  | LinkedinCreatePost _ _ => Some ("post_id", "Post created successfully")
  | LinkedinSendMessage _ _ => Some ("message_id", "Message sent successfully")
  | _ => None
  end.

(** ** More sample worlds *)

Module Scenario.

(** Connected, and the remote action answers [answer]. *)
Definition answering (answer : outcome value) : World :=
  Sample.make_world (Some Sample.key_store) None (Return Sample.default_entity)
    (Return (Some {| status := None |})) (Return Sample.redirect) answer.

(** Connected, but [Action] cannot be imported. *)
Definition without_action : World :=
  {| composio_installed := true;
     credentials := Some Sample.key_store;
     getenv := fun _ => None;
     new_toolset := fun key => Return {| api_key := key |};
     get_entity := fun _ _ => Return Sample.default_entity;
     get_connection := fun _ _ => Return (Some {| status := Some "ACTIVE" |});
     initiate_connection := fun _ _ _ => Return Sample.redirect;
     import_Action := Raise (Exn "cannot import name 'Action' from 'composio'");
     Action_member := fun name => Return name;
     execute_action := fun _ _ _ => Return Sample.sent;
     builtin_str := Sample.sample_str |}.

(** The SDK is not installed. *)
Definition without_sdk : World :=
  {| composio_installed := false;
     credentials := Some Sample.key_store;
     getenv := fun _ => None;
     new_toolset := fun key => Return {| api_key := key |};
     get_entity := fun _ _ => Return Sample.default_entity;
     get_connection := fun _ _ => Return (Some {| status := Some "ACTIVE" |});
     initiate_connection := fun _ _ _ => Return Sample.redirect;
     import_Action := Return tt;
     Action_member := fun name => Return name;
     execute_action := fun _ _ _ => Return Sample.sent;
     builtin_str := Sample.sample_str |}.

(** A credential source without the key, while the environment has one. *)
Definition empty_store : CredentialManager := {| cm_get := fun _ => Return None |}.

Definition empty_store_key_in_env : World :=
  Sample.make_world (Some empty_store) (Some "sk-env") (Return Sample.default_entity)
    (Return (Some {| status := Some "ACTIVE" |})) (Return Sample.redirect)
    (Return Sample.sent).

(** Not connected, and the initiation of an authorization fails. *)
Definition initiation_fails : World :=
  Sample.make_world (Some Sample.key_store) None (Return Sample.default_entity)
    (Raise (Exn "404 Not Found")) (Raise (Exn "500 Internal Server Error"))
    (Return Sample.sent).

Definition tg_gmail : list event :=
  [EnsureConnection "GMAIL"; CredentialsGet "composio"; NewToolSet "sk-test";
   GetEntity "default"; GetConnection "GMAIL"].

Definition tg_linkedin : list event :=
  [EnsureConnection "LINKEDIN"; CredentialsGet "composio"; NewToolSet "sk-test";
   GetEntity "default"; GetConnection "LINKEDIN"].

Definition handle : ComposioToolSet := {| api_key := "sk-test" |}.

End Scenario.

(** ** The monad and its traces *)

Lemma bind_return {A B} (t : list event) (a : A) (f : A -> M B) :
  mbind f (t, Return a) = (t ++ (f a).1, (f a).2).
Proof. unfold mbind, M_bind. by destruct (f a). Qed.

Lemma bind_inv {A B} (m : M A) (f : A -> M B) (b : B) :
  result (mbind f m) = Return b ->
  exists a, result m = Return a /\ result (f a) = Return b
            /\ trace (mbind f m) = trace m ++ trace (f a).
Proof.
  destruct m as [t [a|e]]; [|done]. rewrite bind_return. simpl. intros H. by exists a.
Qed.

Lemma lift_inv {A} (o : outcome A) (a : A) : result (lift o) = Return a -> o = Return a.
Proof. done. Qed.

Lemma emits_ret {A} P (a : A) : emits P (mret a : M A).
Proof. constructor. Qed.

Lemma emits_lift {A} P (o : outcome A) : emits P (lift o).
Proof. constructor. Qed.

Lemma emits_call {A} (P : event -> Prop) ev (o : outcome A) : P ev -> emits P (call ev o).
Proof. intros H. by repeat constructor. Qed.

Lemma emits_bind {A B} P (m : M A) (f : A -> M B) :
  emits P m -> (forall a, emits P (f a)) -> emits P (mbind f m).
Proof.
  unfold emits, trace. destruct m as [t [a|e]]; intros Hm Hf; [|done].
  rewrite bind_return. apply Forall_app. split; [done|apply Hf].
Qed.

Lemma emits_try {A} P (m : M A) (h : exn -> M A) :
  emits P m -> (forall e, emits P (h e)) -> emits P (try_except m h).
Proof.
  unfold emits, trace, try_except. destruct m as [t [a|e]]; intros Hm Hh; [done|].
  specialize (Hh e). destruct (h e) as [t' r]. apply Forall_app. by split.
Qed.

Lemma emits_mapM {A B} P (f : A -> M B) (l : list A) :
  (forall a, emits P (f a)) -> emits P (mapM f l).
Proof.
  intros Hf. induction l as [|x l IH]; simpl.
  - apply emits_ret.
  - apply emits_bind; [apply Hf|]. intros y.
    apply emits_bind; [apply IH|]. intros k. apply emits_ret.
Qed.

Lemma emits_weaken {A} (P Q : event -> Prop) (m : M A) :
  (forall ev, P ev -> Q ev) -> emits P m -> emits Q m.
Proof. intros HPQ Hm. by eapply Forall_impl. Qed.

Lemma returns_ret {A} (a : A) : returns (mret a : M A).
Proof. by exists a. Qed.

Lemma returns_try {A} (m : M A) (h : exn -> M A) :
  (forall e, returns (h e)) -> returns (try_except m h).
Proof.
  unfold returns, result, try_except. destruct m as [t [a|e]]; intros Hh.
  - by exists a.
  - destruct (Hh e) as [a Ha]. destruct (h e) as [t' r]. by exists a.
Qed.

Lemma yields_ret {A} (Q : A -> Prop) (a : A) : Q a -> yields Q (mret a : M A).
Proof. by intros H b [= <-]. Qed.

Lemma yields_bind {A B} (Q : B -> Prop) (m : M A) (f : A -> M B) :
  (forall a, yields Q (f a)) -> yields Q (mbind f m).
Proof. intros Hf b H. apply bind_inv in H as (a & _ & H & _). by eapply Hf. Qed.

Lemma yields_try {A} (Q : A -> Prop) (m : M A) (h : exn -> M A) :
  yields Q m -> (forall e, yields Q (h e)) -> yields Q (try_except m h).
Proof.
  unfold yields, result, try_except. destruct m as [t [a|e]]; intros Hm Hh b; simpl.
  - apply Hm.
  - specialize (Hh e b). by destruct (h e) as [t' r].
Qed.

Lemma mapM_length {A B} (f : A -> M B) (l : list A) (k : list B) :
  result (mapM f l) = Return k -> List.length k = List.length l.
Proof.
  revert k. induction l as [|x l IH]; intros k; simpl.
  - by intros [= <-].
  - intros H. apply bind_inv in H as (y & _ & H & _).
    apply bind_inv in H as (k' & Hk' & H & _). injection H as <-.
    simpl. f_equal. by apply IH.
Qed.

Lemma mapM_head {A B} (f : A -> M B) (x : A) (l : list A) (k : list B) :
  result (mapM f (x :: l)) = Return k -> returns (f x).
Proof. simpl. intros H. apply bind_inv in H as (y & Hy & _). by exists y. Qed.

Lemma str_truthy_nonempty s : s <> EmptyString -> str_truthy s = true.
Proof. by destruct s. Qed.

Lemma dict_truthy_lookup (d : envelope) k v : d !! k = Some v -> dict_truthy d = true.
Proof.
  intros H. unfold dict_truthy. destruct (size d) eqn:E; [|done].
  apply map_size_empty_iff in E. subst d. by rewrite lookup_empty in H.
Qed.

(** ** The Connection Gate *)

(** The check never raises, and its answer is one of the three reports. *)
Lemma check_trichotomy w client app id :
  exists t r, _check_oauth_connection w client app id = (t, Return r) /\
    (reports r connected
     \/ (exists u, u <> EmptyString /\ reports r (not_connected u))
     \/ (exists msg, msg <> EmptyString /\ reports r (check_failed msg))).
Proof.
  unfold _check_oauth_connection, reports.
  destruct client as [c|]; simpl.
  - destruct (get_entity w c id) as [entity|e]; simpl.
    + destruct (get_connection w entity app) as [[[[s|]]|]|e]; simpl.
      all: try destruct (String.eqb s "ACTIVE"); simpl.
      all: try (eexists _, _; split; [reflexivity|]; left; reflexivity).
      all: destruct (initiate_connection w entity app _) as [[[[|a u]|]]|e']; simpl.
      all: eexists _, _; split; [reflexivity|]; right; left; eexists; split; [|reflexivity]; done.
    + eexists _, _; split; [reflexivity|]. right; right. eexists; split; [|reflexivity]. done.
  - eexists _, _; split; [reflexivity|]. right; right. eexists; split; [|reflexivity]. done.
Qed.

(** A check failure is an exception of [get_entity], and nothing else. *)
Lemma check_failed_iff_get_entity_raises w ts app msg :
  result (_check_oauth_connection w (Some ts) app "default") = Return (false, None, Some msg)
  <-> exists e, get_entity w ts "default" = Raise e
                /\ msg = "Failed to check OAuth connection: " +:+ exn_text e.
Proof.
  unfold _check_oauth_connection. simpl.
  destruct (get_entity w ts "default") as [entity|e]; simpl.
  - split; [|by intros (e & [=] & _)].
    destruct (get_connection w entity app) as [[[[s|]]|]|e]; simpl.
    all: try destruct (String.eqb s "ACTIVE"); simpl; try done.
    all: destruct (initiate_connection w entity app _) as [[[[|a u]|]]|e']; simpl; done.
  - split; [intros [= <-]; by exists e|]. by intros (e' & [= <-] & ->).
Qed.

(** An exception of [get_connection] is read as "no connection": the
    check goes on to initiate an authorization. *)
Lemma get_connection_raise_not_connected w ts app entity e :
  get_entity w ts "default" = Return entity ->
  get_connection w entity app = Raise e ->
  exists u, u <> EmptyString /\
    result (_check_oauth_connection w (Some ts) app "default") = Return (false, Some u, None).
Proof.
  intros He Hc. unfold _check_oauth_connection. simpl. rewrite He. simpl. rewrite Hc. simpl.
  destruct (initiate_connection w entity app _) as [[[[|a u]|]]|e']; simpl.
  all: eexists; split; [|reflexivity]; done.
Qed.

Lemma get_client_cases w :
  Forall (fun ev => is_remote ev = false /\ forall app, is_gate_event app ev)
         (trace (_get_composio_client w)) /\
  ((exists e, result (_get_composio_client w) = Raise e)
   \/ (exists msg, msg <> EmptyString
                   /\ result (_get_composio_client w) = Return (None, Some msg))
   \/ (exists ts, result (_get_composio_client w) = Return (Some ts, None))).
Proof.
  unfold _get_composio_client.
  destruct (composio_installed w); simpl.
  2: { split; [constructor|]. right; left. eexists; split; [|reflexivity]; done. }
  destruct (credentials w) as [cm|]; simpl.
  - destruct (cm_get cm "composio") as [[[|a k]|]|e]; simpl.
    2: destruct (new_toolset w _) as [ts|e]; simpl.
    all: split; [by repeat constructor|]; eauto.
    all: right; left; eexists; split; [|reflexivity]; done.
  - destruct (getenv w "COMPOSIO_API_KEY") as [[|a k]|]; simpl.
    2: destruct (new_toolset w _) as [ts|e]; simpl.
    all: split; [by repeat constructor|]; eauto.
    all: right; left; eexists; split; [|reflexivity]; done.
Qed.

Lemma check_emits w client app id :
  emits (is_gate_event app) (_check_oauth_connection w client app id).
Proof.
  unfold _check_oauth_connection.
  apply emits_try; [|intros; apply emits_ret].
  apply emits_bind; [destruct client; [apply emits_ret|apply emits_lift]|intros c].
  apply emits_bind; [by apply emits_call|intros entity].
  apply emits_bind.
  - apply emits_try; [|intros; apply emits_ret].
    apply emits_bind; [by apply emits_call|intros [[[s|]]|]]; simpl; try apply emits_ret.
    destruct (String.eqb s "ACTIVE"); apply emits_ret.
  - intros [r|]; [apply emits_ret|].
    apply emits_try; [|intros; apply emits_ret].
    apply emits_bind; [by apply emits_call|intros req].
    destruct (opt_str_truthy _); apply emits_ret.
Qed.

Lemma ensure_emits w app : emits (is_gate_event app) (_ensure_oauth_connection w app).
Proof.
  unfold _ensure_oauth_connection.
  apply emits_bind; [by apply emits_call|intros _].
  apply emits_bind.
  - eapply Forall_impl; [apply (get_client_cases w)|]. intros ev [_ H]. apply H.
  - intros [client error]. destruct (opt_str_truthy error); [apply emits_ret|].
    apply emits_bind; [apply check_emits|]. intros [[b u] ce].
    destruct (opt_str_truthy ce); [apply emits_ret|]. destruct (negb b); apply emits_ret.
Qed.

Lemma ensure_spec w app client er :
  result (_ensure_oauth_connection w app) = Return (client, er) -> gate_case w app client er.
Proof.
  pose proof (get_client_cases w) as [Ht Hc].
  unfold _ensure_oauth_connection at 1.
  destruct (_get_composio_client w) as [t0 r0] eqn:E0. unfold result, trace in *. simpl in *.
  destruct Hc as [[e ->]|[(msg & Hmsg & ->)|[ts ->]]]; simpl.
  - done.
  - assert (str_truthy msg = true) as Hs by (by destruct msg).
    rewrite Hs. simpl. intros [= <- <-]. apply gate_no_client; [by rewrite E0|done|].
    unfold _ensure_oauth_connection. rewrite E0. simpl. rewrite Hs. simpl.
    constructor; [done|]. rewrite app_nil_r. eapply Forall_impl; [exact Ht|]. by intros ev [H _].
  - destruct (check_trichotomy w (Some ts) app "default") as (t1 & r & E1 & Hr).
    rewrite E1. simpl. unfold reports in Hr.
    destruct Hr as [->|[(u & Hu & ->)|(m & Hm & ->)]]; simpl.
    + intros [= <- <-]. apply gate_connected; by rewrite ?E0, ?E1.
    + intros [= <- <-]. apply (gate_not_connected w app ts u); by rewrite ?E0, ?E1.
    + assert (str_truthy m = true) as -> by (by destruct m). simpl.
      intros [= <- <-]. apply (gate_check_failed w app ts m); by rewrite ?E0, ?E1.
Qed.

(** The gate raises only what the construction of the client raises. *)
Lemma ensure_raise w app e :
  result (_ensure_oauth_connection w app) = Raise e ->
  result (_get_composio_client w) = Raise e.
Proof.
  unfold _ensure_oauth_connection, result.
  destruct (_get_composio_client w) as [t0 [[client error]|e0]] eqn:E0; simpl; [|congruence].
  destruct (opt_str_truthy error); simpl; [done|].
  destruct (check_trichotomy w client app "default") as (t1 & [[b u] ce] & -> & _). simpl.
  destruct (opt_str_truthy ce); simpl; [done|]. by destruct (negb b).
Qed.

Lemma ensure_raises_when_client_raises w app e :
  result (_get_composio_client w) = Raise e ->
  result (_ensure_oauth_connection w app) = Raise e.
Proof.
  unfold _ensure_oauth_connection, result.
  destruct (_get_composio_client w) as [t0 r0]. simpl. by intros ->.
Qed.

(** The case analysis every proof about the gate starts with. *)
Lemma ensure_cases w app :
  exists tg,
    (exists e, _ensure_oauth_connection w app = (tg, Raise e)
               /\ result (_get_composio_client w) = Raise e)
    \/ (exists client er, _ensure_oauth_connection w app = (tg, Return (client, er))
                          /\ gate_case w app client er).
Proof.
  destruct (_ensure_oauth_connection w app) as [tg [[client er]|e]] eqn:E; exists tg.
  - right. exists client, er. split; [done|]. apply ensure_spec. by rewrite E.
  - left. exists e. split; [done|]. apply ensure_raise with app. by rewrite E.
Qed.

Lemma ensure_connected w app ts :
  result (_get_composio_client w) = Return (Some ts, None) ->
  result (_check_oauth_connection w (Some ts) app "default") = Return (true, None, None) ->
  result (_ensure_oauth_connection w app) = Return (Some ts, None).
Proof.
  intros Hclient Hcheck.
  destruct (ensure_cases w app) as [tg [(e & E & He)|(client & er & E & Hg)]]; [congruence|].
  rewrite E. simpl.
  inversion Hg as [ts' Hc Hk|msg' Hc Hm Ht|ts' msg' Hc Hk Hm|ts' u' Hc Hk Hu]; subst;
    rewrite Hclient in Hc; try discriminate; injection Hc as <-;
    rewrite Hcheck in Hk; try discriminate.
  done.
Qed.

Lemma gate_case_truthy w app client env :
  gate_case w app client (Some env) ->
  dict_truthy env = true /\ exists s, env !! "error" = Some (VStr s).
Proof.
  inversion 1; subst.
  all: split; [eapply (dict_truthy_lookup _ "error")|eexists];
    first [apply lookup_singleton_eq|apply lookup_insert_eq].
Qed.

Lemma gate_case_no_success w app client env :
  gate_case w app client (Some env) -> env !! "success" = None.
Proof. inversion 1; subst; unfold error_envelope, oauth_envelope; by simplify_map_eq. Qed.

Lemma ensure_no_execute w app tg r :
  _ensure_oauth_connection w app = (tg, r) -> forall a p, ExecuteAction a p ∉ tg.
Proof.
  intros E a p Hin. pose proof (ensure_emits w app) as H. unfold emits, trace in H.
  rewrite E in H. simpl in H. rewrite Forall_forall in H. by apply H in Hin.
Qed.

Lemma ensure_first_event w app :
  exists t, trace (_ensure_oauth_connection w app) = EnsureConnection app :: t.
Proof.
  unfold _ensure_oauth_connection, trace.
  match goal with |- context [mbind ?f (call ?ev ?o)] =>
    change (mbind f (call ev o)) with (mbind f ([ev], o)) end.
  rewrite bind_return. simpl. eauto.
Qed.

(** ** After the gate *)

Lemma after_gate_raise w app rest tg e :
  _ensure_oauth_connection w app = (tg, Raise e) -> after_gate w app rest = (tg, Raise e).
Proof. unfold after_gate. by intros ->. Qed.

Lemma after_gate_error w app rest tg client env :
  _ensure_oauth_connection w app = (tg, Return (client, Some env)) ->
  after_gate w app rest = (tg, Return env).
Proof.
  intros E. unfold after_gate. rewrite E. simpl.
  assert (gate_case w app client (Some env)) as Hg by (apply ensure_spec; by rewrite E).
  apply gate_case_truthy in Hg as [-> _]. simpl. by rewrite app_nil_r.
Qed.

Lemma after_gate_ok w app rest tg client :
  _ensure_oauth_connection w app = (tg, Return (client, None)) ->
  after_gate w app rest = (tg ++ trace (rest client), result (rest client)).
Proof. intros E. unfold after_gate. rewrite E. simpl. by destruct (rest client). Qed.

Lemma after_gate_first_event w app rest :
  exists t, trace (after_gate w app rest) = EnsureConnection app :: t.
Proof.
  destruct (ensure_first_event w app) as [t Ht]. unfold after_gate.
  destruct (_ensure_oauth_connection w app) as [tg [[client er]|e]]; simpl in *; subst tg.
  - destruct (if opt_dict_truthy er then _ else _) as [t' r']. simpl. eauto.
  - eauto.
Qed.

Lemma emits_after_gate (P : event -> Prop) w app rest :
  (forall ev, is_gate_event app ev -> P ev) ->
  (forall client, emits P (rest client)) ->
  emits P (after_gate w app rest).
Proof.
  intros Hg Hr. apply emits_bind.
  - eapply emits_weaken; [exact Hg|apply ensure_emits].
  - intros [client er]. destruct (opt_dict_truthy er); [apply emits_ret|apply Hr].
Qed.

Lemma after_gate_success_inv w app rest env :
  result (after_gate w app rest) = Return env ->
  is_Some (env !! "success") ->
  exists ts tg,
    _ensure_oauth_connection w app = (tg, Return (Some ts, None))
    /\ result (rest (Some ts)) = Return env
    /\ trace (after_gate w app rest) = tg ++ trace (rest (Some ts)).
Proof.
  intros Hr Hs.
  destruct (ensure_cases w app) as [tg [(e & E & He)|(client & er & E & Hg)]].
  { by rewrite (after_gate_raise _ _ _ _ _ E) in Hr. }
  destruct er as [env'|].
  - rewrite (after_gate_error _ _ _ _ _ _ E) in Hr. injection Hr as <-.
    apply gate_case_no_success in Hg. rewrite Hg in Hs. by destruct Hs.
  - inversion Hg; subst. rewrite (after_gate_ok _ _ _ _ _ E) in Hr |- *.
    by exists ts, tg.
Qed.

(** ** The handlers *)

Lemma emits_vget P v k d : emits P (vget v k d).
Proof. apply emits_lift. Qed.

Lemma emits_data_get P v k d : emits P (data_get v k d).
Proof. apply emits_bind; [apply emits_vget|intros; apply emits_vget]. Qed.

Lemma emits_execute_with (P : event -> Prop) w client name params :
  (forall a, P (ExecuteAction a params)) ->
  emits P (client_execute_action w client name params).
Proof.
  intros HP.
  apply emits_bind; [destruct client; [apply emits_ret|apply emits_lift]|intros c].
  apply emits_bind; [apply emits_lift|intros a]. by apply emits_call.
Qed.

Lemma client_execute_action_inv w client name params answer :
  result (client_execute_action w client name params) = Return answer ->
  exists ts action,
    client = Some ts /\ Action_member w name = Return action
    /\ execute_action w ts action params = Return answer
    /\ trace (client_execute_action w client name params) = [ExecuteAction action params].
Proof.
  unfold client_execute_action, method, lift.
  destruct client as [ts|]; [|done]. simpl.
  destruct (Action_member w name) as [action|e]; [|done]. simpl.
  intros H. by exists ts, action.
Qed.

Lemma try_except_inv (m : M envelope) (h : exn -> value) (env : envelope) :
  result (try_except m (fun e => mret {[ "error" := h e ]})) = Return env ->
  is_Some (env !! "success") ->
  result m = Return env
  /\ trace (try_except m (fun e => mret {[ "error" := h e ]})) = trace m.
Proof.
  destruct m as [t [a|e]]; simpl; [done|].
  intros [= <-]. rewrite lookup_singleton_ne by done. by intros [? [=]].
Qed.

Ltac emits_step :=
  first
    [ apply emits_ret
    | apply emits_lift
    | apply emits_vget
    | apply emits_data_get
    | apply emits_execute_with; intros; exact I
    | apply emits_mapM; intros
    | apply emits_try; [|intros]
    | apply emits_bind; [|intros]
    | match goal with
      | |- emits _ (if ?b then _ else _) => destruct b
      end ].

Ltac emits_tac := cbv zeta; repeat emits_step.

Ltac yields_step :=
  first
    [ apply yields_ret; by simplify_map_eq
    | apply yields_try; [|intros]
    | apply yields_bind; intros
    | match goal with
      | |- yields _ (if ?b then _ else _) => destruct b
      end ].

Ltac yields_tac := cbv zeta; repeat yields_step.

Ltac unfold_handler :=
  cbn [invoke];
  unfold Gmail.gmail_send_email, Gmail.gmail_read_emails, Gmail.gmail_search_emails,
    Gmail.gmail_create_draft, LinkedIn.linkedin_create_post, LinkedIn.linkedin_get_profile,
    LinkedIn.linkedin_get_company, LinkedIn.linkedin_search_people,
    LinkedIn.linkedin_send_message;
  repeat match goal with
         | H : ?x = _ |- context [?x] => rewrite H
         end;
  cbn [negb].

(** A handler that failed its validation. *)
Ltac immediate :=
  eapply shape_immediate;
  [ unfold_handler; reflexivity
  | by rewrite lookup_singleton_ne
  | intros _; eexists; by rewrite lookup_singleton_eq ].

(** A handler that passed it. *)
Ltac gated :=
  eapply shape_gated;
  [ reflexivity
  | unfold_handler; reflexivity
  | intros client; apply returns_try; intros; apply returns_ret
  | intros client; unfold Gmail.read_entry, Gmail.search_entry, LinkedIn.people_entry;
    emits_tac
  | intros client; yields_tac ].

Lemma invoke_shape w c : handler_shape w c.
Proof.
  destruct c.
  - destruct (str_truthy to) eqn:Hto; [|immediate].
    destruct (str_truthy subject) eqn:Hsubject; [|immediate].
    destruct (str_truthy body) eqn:Hbody; [|immediate].
    gated.
  - gated.
  - destruct (str_truthy query) eqn:Hquery; [|immediate]. gated.
  - destruct (str_truthy to) eqn:Hto; [|immediate].
    destruct (str_truthy subject) eqn:Hsubject; [|immediate].
    gated.
  - destruct (negb (str_truthy text) || (3000 <? Z.of_nat (String.length text)))%bool
      eqn:Htext; [immediate|]. gated.
  - eapply shape_immediate; [reflexivity|reflexivity|]. by intros [].
  - gated.
  - destruct (str_truthy keywords) eqn:Hkeywords; [|immediate]. gated.
  - destruct (str_truthy recipient_id) eqn:Hrecipient; [|immediate].
    destruct (negb (str_truthy message) || (8000 <? Z.of_nat (String.length message)))%bool
      eqn:Hmessage; [immediate|]. gated.
Qed.

(** What [for msg in messages[:m]] leaves of the remote list, when every
    entry is read with [.get]. *)
Lemma listing_length (f : value -> M value) (messages : value) (m total : Z)
    (items k : list value) :
  (forall s, ~ returns (f (VStr s))) ->
  1 <= m ->
  slice_items messages m = Return items ->
  result (mapM f items) = Return k ->
  len messages = Return total ->
  Z.of_nat (List.length k) = Z.min total m.
Proof.
  intros Hf Hm Hitems Hk Htotal. apply mapM_length in Hk as Hlen.
  unfold slice_items, take_upto in Hitems.
  assert ((m <? 0) = false) as Hneg by (apply Z.ltb_ge; lia). rewrite Hneg in Hitems.
  destruct messages as [| | |s|l|d]; try discriminate; injection Hitems as <-;
    injection Htotal as <-.
  - destruct s as [|c s]; [rewrite Hlen; simpl; rewrite take_nil; simpl; lia|].
    exfalso. destruct (Z.to_nat m) as [|j] eqn:Hj; [lia|].
    simpl in Hk. by apply mapM_head, Hf in Hk.
  - rewrite Hlen, length_take. lia.
Qed.

Lemma read_entry_str s : ~ returns (Gmail.read_entry (VStr s)).
Proof. by intros [a Ha]. Qed.

Lemma search_entry_str s : ~ returns (Gmail.search_entry (VStr s)).
Proof. by intros [a Ha]. Qed.

Lemma no_credential_client w :
  (forall cm, credentials w = Some cm -> cm_get cm "composio" = Return None) ->
  getenv w "COMPOSIO_API_KEY" = None ->
  exists msg, result (_get_composio_client w) = Return (None, Some msg).
Proof.
  intros Hcm Henv. unfold _get_composio_client.
  destruct (composio_installed w); simpl; [|by eexists].
  destruct (credentials w) as [cm|]; simpl.
  - rewrite (Hcm cm eq_refl). simpl. by eexists.
  - rewrite Henv. simpl. by eexists.
Qed.

Tactic Notation "bind_step" hyp(H) "as" ident(a) ident(Ha) ident(Ht) :=
  apply bind_inv in H as (a & Ha & H & Ht).

(** ** The envelope after a gate report *)

(** What a handler makes of the two negative reports of
    [_check_oauth_connection]: the triple [(False, url, None)] comes back as
    an envelope with [oauth_required] set to true and [oauth_url] the url,
    which is not empty; the triple [(False, None, msg)] comes back as
    [{error: msg}], without [oauth_required].  Which of the two a failing
    remote lookup leads to is settled further below. *)
Lemma gate_report_envelope (w : World) (c : tool_call) (app : string)
    (ts : ComposioToolSet) (r : bool * option string * option string) :
  app_of c = Some app ->
  EnsureConnection app ∈ trace (invoke w c) ->
  result (_get_composio_client w) = Return (Some ts, None) ->
  result (_check_oauth_connection w (Some ts) app "default") = Return r ->
  (forall u, reports r (not_connected u) ->
     u <> EmptyString /\
     exists env, result (invoke w c) = Return env /\
       env !! "oauth_required" = Some (VBool true) /\
       env !! "oauth_url" = Some (VStr u))
  /\
  (forall msg, reports r (check_failed msg) ->
     exists env, result (invoke w c) = Return env /\
       env !! "error" = Some (VStr msg) /\
       env !! "oauth_required" = None).
Proof.
  intros Happ Hin Hclient Hcheck.
  destruct (invoke_shape w c) as [env0 Hi _ _|app0 rest Happ0 Hi _ _ _].
  { rewrite Hi in Hin. simpl in Hin. by apply elem_of_nil in Hin. }
  rewrite Happ in Happ0. injection Happ0 as <-. clear Hin.
  destruct (ensure_cases w app) as [tg [(e & E & He)|(client & er & E & Hg)]]; [congruence|].
  unfold reports.
  inversion Hg as [ts' Hc Hk|msg' Hc Hm Ht|ts' msg' Hc Hk Hm|ts' u' Hc Hk Hu]; subst;
    rewrite Hclient in Hc; try discriminate; injection Hc as <-;
    rewrite Hcheck in Hk; injection Hk as ->.
  - split; intros ? [=].
  - split; [intros ? [=]|]. intros msg [= <-].
    rewrite Hi, (after_gate_error _ _ _ _ _ _ E). eexists; split; [reflexivity|].
    unfold error_envelope. by rewrite lookup_singleton_eq, lookup_singleton_ne.
  - split; [|intros ? [=]]. intros u [= <-]. split; [done|].
    rewrite Hi, (after_gate_error _ _ _ _ _ _ E). eexists; split; [reflexivity|].
    unfold oauth_envelope. by simplify_map_eq.
Qed.

Lemma gate_report_envelope_witness :
  (exists env,
     result (invoke Sample.world_not_connected (LinkedinCreatePost "hello" "PUBLIC"))
       = Return env /\
     env !! "oauth_required" = Some (VBool true) /\
     env !! "oauth_url" = Some (VStr "https://backend.composio.dev/s/abc"))
  /\
  (exists env,
     result (invoke Sample.world_check_fails (GmailReadEmails 10 "INBOX" false))
       = Return env /\
     env !! "error" = Some (VStr "Failed to check OAuth connection: 503 Service Unavailable") /\
     env !! "oauth_required" = None).
Proof.
  split.
  - refine (proj2 (proj1 (gate_report_envelope Sample.world_not_connected
      (LinkedinCreatePost "hello" "PUBLIC") "LINKEDIN" {| api_key := "sk-test" |}
      (false, Some "https://backend.composio.dev/s/abc", None) _ _ _ _) _ _)).
    + reflexivity.
    + vm_compute. by repeat constructor.
    + reflexivity.
    + reflexivity.
    + reflexivity.
  - refine (proj2 (gate_report_envelope Sample.world_check_fails
      (GmailReadEmails 10 "INBOX" false) "GMAIL" {| api_key := "sk-test" |}
      (false, None, Some "Failed to check OAuth connection: 503 Service Unavailable")
      _ _ _ _) _ _).
    + reflexivity.
    + vm_compute. by repeat constructor.
    + reflexivity.
    + reflexivity.
    + reflexivity.
Defined.

(** No active connection, for whatever reason, is reported as not
    connected: the record is missing, its status is not the active marker,
    or [entity.get_connection] raised (the inner [try] swallows it). *)
Lemma inactive_not_connected w ts app entity :
  get_entity w ts "default" = Return entity ->
  spec_active (found (get_connection w entity app)) = false ->
  exists u, u <> EmptyString /\
    result (_check_oauth_connection w (Some ts) app "default")
    = Return (false, Some u, None).
Proof.
  intros He. unfold _check_oauth_connection. simpl. rewrite He. simpl.
  destruct (get_connection w entity app) as [[[[s|]]|]|e]; simpl.
  1: destruct (String.eqb s "ACTIVE"); simpl.
  all: try discriminate.
  all: intros _.
  all: destruct (initiate_connection w entity app _) as [[[[|a u]|]]|e']; simpl.
  all: eexists; split; [|reflexivity]; done.
Qed.

(** The claim as worded does not hold: where the lookup of the connection
    status [entity.get_connection] raises, the handler consults the gate,
    has a client and an entity, and still returns an envelope whose
    [oauth_required] is true, so no envelope with an [error] string and
    without [oauth_required] comes back. *)
Lemma status_lookup_exception_asks_for_oauth :
  app_of (GmailReadEmails 10 "INBOX" false) = Some "GMAIL"
  /\ EnsureConnection "GMAIL"
       ∈ trace (invoke Scenario.initiation_fails (GmailReadEmails 10 "INBOX" false))
  /\ result (_get_composio_client Scenario.initiation_fails)
     = Return (Some Scenario.handle, None)
  /\ get_entity Scenario.initiation_fails Scenario.handle "default"
     = Return Sample.default_entity
  /\ get_connection Scenario.initiation_fails Sample.default_entity "GMAIL"
     = Raise (Exn "404 Not Found")
  /\ (exists env,
        result (invoke Scenario.initiation_fails (GmailReadEmails 10 "INBOX" false))
          = Return env
        /\ env !! "oauth_required" = Some (VBool true)
        /\ env !! "oauth_url" = Some (VStr "https://app.composio.dev/app/gmail"))
  /\ ~ (exists env msg,
          result (invoke Scenario.initiation_fails (GmailReadEmails 10 "INBOX" false))
            = Return env
          /\ env !! "error" = Some (VStr msg)
          /\ env !! "oauth_required" = None).
Proof.
  split; [reflexivity|]. split; [vm_compute; by repeat constructor|].
  split; [reflexivity|]. split; [reflexivity|]. split; [reflexivity|].
  split.
  - eexists. split; [reflexivity|]. split; reflexivity.
  - intros (env & msg & Hr & _ & Hno).
    assert (Hyes : exists env',
              result (invoke Scenario.initiation_fails (GmailReadEmails 10 "INBOX" false))
                = Return env'
              /\ env' !! "oauth_required" = Some (VBool true)).
    { eexists. split; reflexivity. }
    destruct Hyes as (env' & Hr' & Hyes). rewrite Hr in Hr'. injection Hr' as <-.
    congruence.
Qed.

(** C1: for every tool handler that consults the Connection Gate and has a
    client.  If the account has no active connection - the connection
    record is missing, its status is not the active marker, or the lookup of
    the record [entity.get_connection] raised an exception - the returned
    envelope contains [oauth_required] set to true and a non-empty
    [oauth_url] string.  If [client.get_entity] raised an exception (the
    only check failure there is), the returned envelope contains the [error]
    string "Failed to check OAuth connection: " followed by the text of the
    exception, and no [oauth_required] key at all. *)
Theorem status_lookup_envelope (w : World) (c : tool_call) (app : string)
    (ts : ComposioToolSet) :
  app_of c = Some app ->
  EnsureConnection app ∈ trace (invoke w c) ->
  result (_get_composio_client w) = Return (Some ts, None) ->
  (forall entity,
     get_entity w ts "default" = Return entity ->
     spec_active (found (get_connection w entity app)) = false ->
     exists env u, result (invoke w c) = Return env /\
       env !! "oauth_required" = Some (VBool true) /\
       env !! "oauth_url" = Some (VStr u) /\ u <> EmptyString)
  /\
  (forall entity e,
     get_entity w ts "default" = Return entity ->
     get_connection w entity app = Raise e ->
     exists env u, result (invoke w c) = Return env /\
       env !! "oauth_required" = Some (VBool true) /\
       env !! "oauth_url" = Some (VStr u) /\ u <> EmptyString)
  /\
  (forall e,
     get_entity w ts "default" = Raise e ->
     exists env, result (invoke w c) = Return env /\
       env !! "error"
         = Some (VStr ("Failed to check OAuth connection: " +:+ exn_text e)) /\
       env !! "oauth_required" = None).
Proof.
  intros Happ Hin Hclient.
  assert (Hnot : forall entity,
            get_entity w ts "default" = Return entity ->
            spec_active (found (get_connection w entity app)) = false ->
            exists env u, result (invoke w c) = Return env /\
              env !! "oauth_required" = Some (VBool true) /\
              env !! "oauth_url" = Some (VStr u) /\ u <> EmptyString).
  { intros entity He Hs.
    destruct (inactive_not_connected w ts app entity He Hs) as (u & Hu & Hcheck).
    destruct (gate_report_envelope w c app ts _ Happ Hin Hclient Hcheck) as [Hyes _].
    destruct (Hyes u eq_refl) as (_ & env & Hr & Ho & Hurl).
    by exists env, u. }
  split; [exact Hnot|]. split.
  - intros entity e He Hc. apply (Hnot entity He). by rewrite Hc.
  - intros e He.
    assert (Hcheck : result (_check_oauth_connection w (Some ts) app "default")
                     = Return (false, None,
                               Some ("Failed to check OAuth connection: " +:+ exn_text e))).
    { apply check_failed_iff_get_entity_raises. by exists e. }
    destruct (gate_report_envelope w c app ts _ Happ Hin Hclient Hcheck) as [_ Hfail].
    exact (Hfail _ eq_refl).
Qed.

Lemma status_lookup_envelope_witness :
  (exists env u,
     result (invoke Scenario.initiation_fails (LinkedinSendMessage "urn:li:person:42" "Hello"))
       = Return env /\
     env !! "oauth_required" = Some (VBool true) /\
     env !! "oauth_url" = Some (VStr u) /\ u <> EmptyString)
  /\
  (exists env u,
     result (invoke Sample.world_expired (GmailSearchEmails "is:starred" 5))
       = Return env /\
     env !! "oauth_required" = Some (VBool true) /\
     env !! "oauth_url" = Some (VStr u) /\ u <> EmptyString)
  /\
  (exists env,
     result (invoke Sample.world_check_fails (GmailReadEmails 10 "INBOX" false))
       = Return env /\
     env !! "error"
       = Some (VStr ("Failed to check OAuth connection: "
                     +:+ exn_text (Exn "503 Service Unavailable"))) /\
     env !! "oauth_required" = None).
Proof.
  split; [|split].
  - refine (proj1 (proj2 (status_lookup_envelope Scenario.initiation_fails
      (LinkedinSendMessage "urn:li:person:42" "Hello") "LINKEDIN" Scenario.handle
      _ _ _)) Sample.default_entity (Exn "404 Not Found") _ _).
    + reflexivity.
    + vm_compute. by repeat constructor.
    + reflexivity.
    + reflexivity.
    + reflexivity.
  - refine (proj1 (status_lookup_envelope Sample.world_expired
      (GmailSearchEmails "is:starred" 5) "GMAIL" Scenario.handle
      _ _ _) Sample.default_entity _ _).
    + reflexivity.
    + vm_compute. by repeat constructor.
    + reflexivity.
    + reflexivity.
    + reflexivity.
  - refine (proj2 (proj2 (status_lookup_envelope Sample.world_check_fails
      (GmailReadEmails 10 "INBOX" false) "GMAIL" Scenario.handle
      _ _ _)) (Exn "503 Service Unavailable") _).
    + reflexivity.
    + vm_compute. by repeat constructor.
    + reflexivity.
    + reflexivity.
Defined.

(** The flag appears in no other envelope: a handler that returns
    [oauth_required] went through a not-connected report. *)
Lemma oauth_required_only_when_not_connected w c env v :
  result (invoke w c) = Return env ->
  env !! "oauth_required" = Some v ->
  exists app ts u,
    app_of c = Some app
    /\ result (_get_composio_client w) = Return (Some ts, None)
    /\ result (_check_oauth_connection w (Some ts) app "default")
       = Return (false, Some u, None)
    /\ u <> EmptyString /\ v = VBool true /\ env !! "oauth_url" = Some (VStr u).
Proof.
  intros Hr Hv.
  destruct (invoke_shape w c) as [env0 Hi Ho _|app rest Happ Hi _ _ Hy].
  { rewrite Hi in Hr. injection Hr as <-. congruence. }
  rewrite Hi in Hr.
  destruct (ensure_cases w app) as [tg [(e & E & He)|(client & er & E & Hg)]].
  { by rewrite (after_gate_raise _ _ _ _ _ E) in Hr. }
  destruct er as [env'|].
  - rewrite (after_gate_error _ _ _ _ _ _ E) in Hr. injection Hr as <-.
    inversion Hg as [|msg' Hc Hm Ht|ts' msg' Hc Hk Hm|ts' u' Hc Hk Hu]; subst.
    + unfold error_envelope in Hv. by rewrite lookup_singleton_ne in Hv.
    + unfold error_envelope in Hv. by rewrite lookup_singleton_ne in Hv.
    + exists app, ts', u'. unfold oauth_envelope in *. simplify_map_eq. by repeat split.
  - rewrite (after_gate_ok _ _ _ _ _ E) in Hr. apply Hy in Hr. congruence.
Qed.

(** ** Exceptions at the tool boundary *)

(** Every exception raised once the client exists is turned into an
    envelope: a handler raises only what the construction of the client
    raises. *)
Lemma invoke_returns_when_client_returns w c :
  returns (_get_composio_client w) -> returns (invoke w c).
Proof.
  intros [[client error] Hc].
  destruct (invoke_shape w c) as [env0 Hi _ _|app0 rest Happ0 Hi Hret _ _].
  { exists env0. by rewrite Hi. }
  rewrite Hi.
  destruct (ensure_cases w app0) as [tg [(e & E & He)|(cl & er & E & Hg)]]; [congruence|].
  destruct er as [env|].
  - exists env. by rewrite (after_gate_error _ _ _ _ _ _ E).
  - rewrite (after_gate_ok _ _ _ _ _ E). destruct (Hret cl) as [a Ha]. by exists a.
Qed.

(** The credential lookup and the constructor of the client sit outside
    every [try]: what they raise leaves the handler. *)
Lemma invoke_raises_when_client_raises w c app e :
  app_of c = Some app ->
  EnsureConnection app ∈ trace (invoke w c) ->
  result (_get_composio_client w) = Raise e ->
  result (invoke w c) = Raise e.
Proof.
  intros Happ Hin Hc.
  destruct (invoke_shape w c) as [env0 Hi _ _|app0 rest Happ0 Hi _ _ _].
  { rewrite Hi in Hin. simpl in Hin. by apply elem_of_nil in Hin. }
  rewrite Hi. pose proof (ensure_raises_when_client_raises w app0 e Hc) as H.
  destruct (_ensure_oauth_connection w app0) as [tg r] eqn:E. simpl in H. subst r.
  by rewrite (after_gate_raise _ _ _ _ _ E).
Qed.

(** The same with a constructor that raises. *)
Lemma client_constructor_exception_escapes :
  invoke Sample.world_constructor_raises (LinkedinGetCompany "ADMINISTRATOR")
  = ([EnsureConnection "LINKEDIN"; CredentialsGet "composio"; NewToolSet "sk-test"],
     Raise (Exn "Invalid API key")).
Proof. reflexivity. Qed.

(** C2: the claim is that no behaviour of the credential source makes a
    handler raise.  With a credential source whose [get] raises,
    [gmail_send_email] on valid arguments makes the lookup and ends in that
    exception, not in an envelope. *)
Theorem credential_lookup_exception_escapes :
  invoke Sample.world_credentials_raise
    (GmailSendEmail "ada@example.org" "Minutes" "See attached." EmptyString EmptyString)
  = ([EnsureConnection "GMAIL"; CredentialsGet "composio"],
     Raise (Exn "Unknown credential 'composio'")).
Proof. reflexivity. Qed.

(** ** Without a credential *)

(** C3: for every tool except [linkedin_get_profile], when the credential
    source returns nothing and the environment variable is unset, the
    handler returns an envelope with an [error] string and no
    [oauth_required] key, and makes no remote call. *)
Theorem no_credential_no_remote_call (w : World) (c : tool_call) :
  app_of c <> None ->
  (forall cm, credentials w = Some cm -> cm_get cm "composio" = Return None) ->
  getenv w "COMPOSIO_API_KEY" = None ->
  exists env s,
    result (invoke w c) = Return env /\
    env !! "error" = Some (VStr s) /\
    env !! "oauth_required" = None /\
    Forall (fun ev => is_remote ev = false) (trace (invoke w c)).
Proof.
  intros Happ Hcm Henv.
  destruct (invoke_shape w c) as [env0 Hi Ho He|app0 rest Happ0 Hi _ _ _].
  { destruct (He Happ) as [s Hs]. exists env0, s. rewrite Hi. by repeat split. }
  destruct (no_credential_client w Hcm Henv) as [msg Hmsg].
  destruct (ensure_cases w app0) as [tg [(e & E & He)|(client & er & E & Hg)]]; [congruence|].
  inversion Hg as [ts' Hc Hk|msg' Hc Hm Ht|ts' msg' Hc Hk Hm|ts' u' Hc Hk Hu]; subst;
    rewrite Hmsg in Hc; try discriminate. injection Hc as <-.
  exists (error_envelope msg), msg.
  rewrite Hi, (after_gate_error _ _ _ _ _ _ E). unfold error_envelope.
  rewrite lookup_singleton_eq, lookup_singleton_ne by done. repeat split.
  by rewrite E in Ht.
Qed.

Lemma no_credential_no_remote_call_witness :
  exists env s,
    result (invoke Sample.world_no_credential (GmailSearchEmails "is:starred" 5)) = Return env /\
    env !! "error" = Some (VStr s) /\
    env !! "oauth_required" = None /\
    Forall (fun ev => is_remote ev = false)
      (trace (invoke Sample.world_no_credential (GmailSearchEmails "is:starred" 5))).
Proof.
  apply (no_credential_no_remote_call Sample.world_no_credential
           (GmailSearchEmails "is:starred" 5)).
  - discriminate.
  - intros cm. discriminate.
  - reflexivity.
Defined.

(** ** The connection check *)

(** C4: the check treats the connection as active exactly when a record
    exists and its status is ["ACTIVE"] or absent; with any other status,
    or without a record, it initiates a new authorization. *)
Theorem active_iff_exists_and_status_active_or_absent
    (w : World) (ts : ComposioToolSet) (app : string) (entity : Entity) :
  get_entity w ts "default" = Return entity ->
  let connection := found (get_connection w entity app) in
  let check := _check_oauth_connection w (Some ts) app "default" in
  (result check = Return (true, None, None) <-> spec_active connection = true)
  /\ (spec_active connection = true <->
      exists conn, connection = Some conn
                   /\ (status conn = Some "ACTIVE" \/ status conn = None))
  /\ (spec_active connection = false ->
      trace check = [GetEntity "default"; GetConnection app;
                     InitiateConnection app "https://app.composio.dev/connections"]
      /\ exists u, u <> EmptyString /\ result check = Return (false, Some u, None))
  /\ (spec_active connection = true ->
      trace check = [GetEntity "default"; GetConnection app]).
Proof.
  intros He connection check. subst connection check. unfold _check_oauth_connection.
  simpl. rewrite He. simpl.
  destruct (get_connection w entity app) as [[[[s|]]|]|e]; simpl.
  - destruct (String.eqb_spec s "ACTIVE") as [->|Hne]; simpl.
    + repeat split; try done. eauto.
    + destruct (initiate_connection w entity app _) as [[[[|a u]|]]|e']; simpl.
      all: repeat split; try done; eauto.
      all: try (eexists; split; [|reflexivity]; done).
      all: intros (conn & [= <-] & [[=]|[=]]); done.
  - repeat split; try done. eauto.
  - destruct (initiate_connection w entity app _) as [[[[|a u]|]]|e']; simpl.
    all: repeat split; try done; eauto.
    all: try (eexists; split; [|reflexivity]; done).
    all: intros (conn & [=] & _).
  - destruct (initiate_connection w entity app _) as [[[[|a u]|]]|e']; simpl.
    all: repeat split; try done; eauto.
    all: try (eexists; split; [|reflexivity]; done).
    all: intros (conn & [=] & _).
Qed.

Lemma active_iff_exists_and_status_active_or_absent_witness :
  (trace (_check_oauth_connection Sample.world_not_connected
            (Some {| api_key := "sk-test" |}) "GMAIL" "default")
   = [GetEntity "default"; GetConnection "GMAIL";
      InitiateConnection "GMAIL" "https://app.composio.dev/connections"]
   /\ exists u, u <> EmptyString /\
        result (_check_oauth_connection Sample.world_not_connected
                  (Some {| api_key := "sk-test" |}) "GMAIL" "default")
        = Return (false, Some u, None))
  /\
  (trace (_check_oauth_connection Sample.world_expired
            (Some {| api_key := "sk-test" |}) "LINKEDIN" "default")
   = [GetEntity "default"; GetConnection "LINKEDIN";
      InitiateConnection "LINKEDIN" "https://app.composio.dev/connections"]
   /\ exists u, u <> EmptyString /\
        result (_check_oauth_connection Sample.world_expired
                  (Some {| api_key := "sk-test" |}) "LINKEDIN" "default")
        = Return (false, Some u, None))
  /\
  (result (_check_oauth_connection (Sample.world_connected Sample.sent)
             (Some {| api_key := "sk-test" |}) "GMAIL" "default")
   = Return (true, None, None)).
Proof.
  split; [|split].
  - apply (proj1 (proj2 (proj2 (active_iff_exists_and_status_active_or_absent
             Sample.world_not_connected {| api_key := "sk-test" |} "GMAIL"
             Sample.default_entity eq_refl)))).
    reflexivity.
  - apply (proj1 (proj2 (proj2 (active_iff_exists_and_status_active_or_absent
             Sample.world_expired {| api_key := "sk-test" |} "LINKEDIN"
             Sample.default_entity eq_refl)))).
    reflexivity.
  - apply (proj1 (active_iff_exists_and_status_active_or_absent
             (Sample.world_connected Sample.sent) {| api_key := "sk-test" |} "GMAIL"
             Sample.default_entity eq_refl)).
    reflexivity.
Defined.

(** ** The remote action comes after the gate *)

(** C5: a handler executes the remote action only after the Connection
    Gate has returned a client handle and no error envelope, on a connected
    report of the check; when the gate returns an error envelope the handler
    returns that envelope and executes nothing. *)
Theorem action_only_after_connected (w : World) (c : tool_call) :
  (forall action params, ExecuteAction action params ∈ trace (invoke w c) ->
     exists app ts t_gate t_rest,
       app_of c = Some app /\
       _ensure_oauth_connection w app = (t_gate, Return (Some ts, None)) /\
       result (_check_oauth_connection w (Some ts) app "default")
         = Return (true, None, None) /\
       trace (invoke w c) = t_gate ++ t_rest /\
       (forall a p, ExecuteAction a p ∉ t_gate))
  /\
  (forall app t_gate client env,
     app_of c = Some app ->
     EnsureConnection app ∈ trace (invoke w c) ->
     _ensure_oauth_connection w app = (t_gate, Return (client, Some env)) ->
     invoke w c = (t_gate, Return env) /\ forall a p, ExecuteAction a p ∉ t_gate).
Proof.
  destruct (invoke_shape w c) as [env0 Hi _ _|app0 rest Happ Hi Hret Hem _].
  - split.
    + intros a p. rewrite Hi. simpl. by intros ?%elem_of_nil.
    + intros app tg client env _. rewrite Hi. simpl. by intros ?%elem_of_nil.
  - split.
    + intros a p Hin. rewrite Hi in Hin |- *.
      destruct (ensure_cases w app0) as [tg [(e & E & He)|(client & er & E & Hg)]].
      { rewrite (after_gate_raise _ _ _ _ _ E) in Hin. simpl in Hin.
        by eapply ensure_no_execute in Hin. }
      destruct er as [env|].
      { rewrite (after_gate_error _ _ _ _ _ _ E) in Hin. simpl in Hin.
        by eapply ensure_no_execute in Hin. }
      inversion Hg; subst.
      exists app0, ts, tg, (trace (rest (Some ts))).
      rewrite (after_gate_ok _ _ _ _ _ E). repeat split; try done.
      by eapply ensure_no_execute.
    + intros app tg client env Happ' _ E. rewrite Happ in Happ'. injection Happ' as <-.
      rewrite Hi. split; [by eapply after_gate_error|by eapply ensure_no_execute].
Qed.

Lemma action_only_after_connected_witness :
  (exists app ts t_gate t_rest,
     app_of (LinkedinSendMessage "urn:li:person:42" "Hello") = Some app /\
     _ensure_oauth_connection (Sample.world_connected Sample.sent) app
       = (t_gate, Return (Some ts, None)) /\
     result (_check_oauth_connection (Sample.world_connected Sample.sent) (Some ts) app
               "default") = Return (true, None, None) /\
     trace (invoke (Sample.world_connected Sample.sent)
              (LinkedinSendMessage "urn:li:person:42" "Hello")) = t_gate ++ t_rest /\
     (forall a p, ExecuteAction a p ∉ t_gate))
  /\
  (invoke Sample.world_not_connected (LinkedinSendMessage "urn:li:person:42" "Hello")
   = ([EnsureConnection "LINKEDIN"; CredentialsGet "composio"; NewToolSet "sk-test";
       GetEntity "default"; GetConnection "LINKEDIN";
       InitiateConnection "LINKEDIN" "https://app.composio.dev/connections"],
      Return (oauth_envelope "LINKEDIN" (Some "https://backend.composio.dev/s/abc")))
   /\ forall a p,
        ExecuteAction a p ∉
          [EnsureConnection "LINKEDIN"; CredentialsGet "composio"; NewToolSet "sk-test";
           GetEntity "default"; GetConnection "LINKEDIN";
           InitiateConnection "LINKEDIN" "https://app.composio.dev/connections"]).
Proof.
  split.
  - apply (proj1 (action_only_after_connected (Sample.world_connected Sample.sent)
             (LinkedinSendMessage "urn:li:person:42" "Hello"))
           "LINKEDIN_SEND_MESSAGE"
           {[ "recipient_id" := VStr "urn:li:person:42"; "message" := VStr "Hello" ]}).
    vm_compute. by repeat constructor.
  - apply (proj2 (action_only_after_connected Sample.world_not_connected
             (LinkedinSendMessage "urn:li:person:42" "Hello"))
           "LINKEDIN" _ None).
    + reflexivity.
    + vm_compute. by repeat constructor.
    + reflexivity.
Defined.

(** ** Validation before the gate *)

(** C6: [linkedin_create_post] with an empty text, and with a text of
    3001 characters, returns the validation error without a single call
    (no gate, no credential lookup, no remote call); a text of exactly 3000
    characters passes and the gate is consulted. *)
Theorem create_post_length_validation (w : World) (text visibility : string) :
  let out := LinkedIn.linkedin_create_post w text visibility in
  let rejected : M envelope :=
    ([], Return {[ "error" := VStr "Post text must be 1-3000 characters" ]}) in
  (text = EmptyString -> out = rejected)
  /\ (String.length text = 3001%nat -> out = rejected)
  /\ (String.length text = 3000%nat ->
      exists t, trace out = EnsureConnection "LINKEDIN" :: t)
  /\ ((3000 < String.length text)%nat -> out = rejected)
  /\ ((1 <= String.length text <= 3000)%nat ->
      exists t, trace out = EnsureConnection "LINKEDIN" :: t).
Proof.
  intros out rejected. subst out rejected. unfold LinkedIn.linkedin_create_post.
  assert (Hlong : (3000 < String.length text)%nat ->
            (negb (str_truthy text) || (3000 <? Z.of_nat (String.length text)))%bool = true).
  { intros H. apply orb_true_iff. right. apply Z.ltb_lt. lia. }
  assert (Hok : (1 <= String.length text <= 3000)%nat ->
            (negb (str_truthy text) || (3000 <? Z.of_nat (String.length text)))%bool = false).
  { intros H. apply orb_false_iff. split.
    - destruct text; simpl in *; [lia|done].
    - apply Z.ltb_ge. lia. }
  repeat split.
  - by intros ->.
  - intros H. rewrite Hlong; [done|lia].
  - intros H. rewrite Hok by lia. apply after_gate_first_event.
  - intros H. by rewrite Hlong.
  - intros H. rewrite Hok by lia. apply after_gate_first_event.
Qed.

Lemma create_post_length_validation_witness :
  LinkedIn.linkedin_create_post Sample.world_not_connected EmptyString "PUBLIC"
    = ([], Return {[ "error" := VStr "Post text must be 1-3000 characters" ]})
  /\ LinkedIn.linkedin_create_post Sample.world_not_connected (post_of_length 3001) "PUBLIC"
    = ([], Return {[ "error" := VStr "Post text must be 1-3000 characters" ]})
  /\ exists t, trace (LinkedIn.linkedin_create_post Sample.world_not_connected
                        (post_of_length 3000) "PUBLIC")
               = EnsureConnection "LINKEDIN" :: t.
Proof.
  split; [|split].
  - apply (proj1 (create_post_length_validation Sample.world_not_connected
             EmptyString "PUBLIC")).
    reflexivity.
  - apply (proj1 (proj2 (create_post_length_validation Sample.world_not_connected
             (post_of_length 3001) "PUBLIC"))).
    vm_compute. reflexivity.
  - apply (proj1 (proj2 (proj2 (create_post_length_validation Sample.world_not_connected
             (post_of_length 3000) "PUBLIC")))).
    vm_compute. reflexivity.
Defined.

(** ** Sending an email, end to end *)

(** C7: with the credential present, the gate reporting connected and the
    remote call answering [successful: true] with [data.id = "abc123"] and
    no [threadId], [gmail_send_email] on non-empty [to], [subject] and
    [body] returns exactly the envelope with [success: true],
    [message_id: "abc123"], [thread_id: null] and
    [message: "Email sent successfully"]. *)
Theorem send_email_end_to_end (w : World) (to subject body cc bcc : string)
    (ts : ComposioToolSet) (action : string) (answer data : envelope) :
  to <> EmptyString -> subject <> EmptyString -> body <> EmptyString ->
  result (_get_composio_client w) = Return (Some ts, None) ->
  result (_check_oauth_connection w (Some ts) "GMAIL" "default") = Return (true, None, None) ->
  import_Action w = Return tt ->
  Action_member w "GMAIL_SEND_EMAIL" = Return action ->
  (forall params, execute_action w ts action params = Return (VDict answer)) ->
  answer !! "successful" = Some (VBool true) ->
  answer !! "data" = Some (VDict data) ->
  data !! "id" = Some (VStr "abc123") ->
  data !! "threadId" = None ->
  result (Gmail.gmail_send_email w to subject body cc bcc)
  = Return {[ "success" := VBool true;
              "message_id" := VStr "abc123";
              "thread_id" := VNone;
              "message" := VStr "Email sent successfully" ]}.
Proof.
  intros Hto Hsubject Hbody Hclient Hcheck Himport Haction Hexec Hok Hdata Hid Hthread.
  unfold Gmail.gmail_send_email.
  rewrite !str_truthy_nonempty by done. cbn [negb].
  pose proof (ensure_connected w "GMAIL" ts Hclient Hcheck) as Hgate.
  destruct (_ensure_oauth_connection w "GMAIL") as [tg rg] eqn:E.
  simpl in Hgate. subst rg. unfold Gmail.GMAIL_APP_NAME.
  rewrite (after_gate_ok _ _ _ _ _ E). unfold result at 1. cbn [snd].
  unfold client_execute_action, data_get, vget, method.
  rewrite Himport, Haction. simpl. rewrite Hexec. simpl.
  rewrite Hok. simpl. rewrite Hdata. simpl. by rewrite Hid, Hthread.
Qed.

Lemma send_email_end_to_end_witness :
  result (Gmail.gmail_send_email (Sample.world_connected Sample.sent)
            "ada@example.org" "Minutes" "See attached." EmptyString EmptyString)
  = Return {[ "success" := VBool true;
              "message_id" := VStr "abc123";
              "thread_id" := VNone;
              "message" := VStr "Email sent successfully" ]}.
Proof.
  apply (send_email_end_to_end (Sample.world_connected Sample.sent)
           "ada@example.org" "Minutes" "See attached." EmptyString EmptyString
           {| api_key := "sk-test" |} "GMAIL_SEND_EMAIL"
           {[ "successful" := VBool true; "data" := VDict {[ "id" := VStr "abc123" ]} ]}
           {[ "id" := VStr "abc123" ]}).
  all: try discriminate.
  all: try reflexivity.
Defined.

(** ** Reading and searching emails *)

(** [max(1, min(100, n))] is the clamp into 1 to 100, and the handler on
    [n] is the handler on the clamped [n]; it consults the gate for every
    [n], and no remote action receives another [max_results] than the
    clamped one.  That the action is executed, and with which parameters,
    is shown with the successful answers. *)
Lemma read_emails_clamp_equations
    (w : World) (n : Z) (label : string) (unread_only : bool) :
  let read := fun m => Gmail.gmail_read_emails w m label unread_only in
  1 <= spec_clamp n <= 100
  /\ read n = read (spec_clamp n)
  /\ read 500 = read 100
  /\ read 0 = read 1
  /\ (exists t, trace (read n) = EnsureConnection "GMAIL" :: t)
  /\ (forall action params,
        ExecuteAction action params ∈ trace (read n) ->
        params !! "max_results" = Some (VInt (spec_clamp n))).
Proof.
  intros read. subst read.
  assert (Hc : forall m, Z.max 1 (Z.min 100 m) = spec_clamp m).
  { intros m. unfold spec_clamp. repeat case_match; lia. }
  assert (Hidem : spec_clamp (spec_clamp n) = spec_clamp n).
  { unfold spec_clamp. repeat case_match; lia. }
  split; [unfold spec_clamp; repeat case_match; lia|].
  split; [unfold Gmail.gmail_read_emails; cbv zeta; by rewrite !Hc, Hidem|].
  split; [reflexivity|]. split; [reflexivity|].
  split; [apply after_gate_first_event|].
  intros action params Hin.
  assert (Hem : emits (fun ev => forall a p, ev = ExecuteAction a p ->
                         p !! "max_results" = Some (VInt (spec_clamp n)))
                  (Gmail.gmail_read_emails w n label unread_only)).
  { unfold Gmail.gmail_read_emails. cbv zeta. rewrite Hc.
    apply emits_after_gate.
    - intros ev Hev a p ->. destruct Hev.
    - intros client. apply emits_try; [|intros; apply emits_ret].
      apply emits_bind; [apply emits_lift|intros _].
      apply emits_bind.
      + apply emits_execute_with. intros a a' p [= _ <-].
        destruct unread_only; by simplify_map_eq.
      + intros answer. unfold Gmail.read_entry. emits_tac. }
  unfold emits in Hem. rewrite Forall_forall in Hem. by eapply Hem.
Qed.

(** C10: a successful [gmail_read_emails] or [gmail_search_emails] returns
    at most [max_results] entries, [max_results] being the bound the handler
    works with (the argument brought into 1 to 100), because the remote list
    is cut to that bound; [total] is the length of the whole remote list, so
    it can exceed the number of entries returned. *)
Theorem listing_truncated_total_untruncated (w : World) :
  (forall n label unread_only env,
     let out := Gmail.gmail_read_emails w n label unread_only in
     result out = Return env ->
     env !! "success" = Some (VBool true) ->
     exists ts action params answer messages emails total,
       ExecuteAction action params ∈ trace out
       /\ execute_action w ts action params = Return answer
       /\ result (data_get answer "messages" (VList [])) = Return messages
       /\ len messages = Return total
       /\ env !! "emails" = Some (VList emails)
       /\ env !! "total" = Some (VInt total)
       /\ Z.of_nat (List.length emails) = Z.min total (Z.max 1 (Z.min 100 n))
       /\ Z.of_nat (List.length emails) <= Z.max 1 (Z.min 100 n)
       /\ (1 <= n -> Z.of_nat (List.length emails) <= n))
  /\
  (forall query n env,
     let out := Gmail.gmail_search_emails w query n in
     result out = Return env ->
     env !! "success" = Some (VBool true) ->
     exists ts action params answer messages results total,
       ExecuteAction action params ∈ trace out
       /\ execute_action w ts action params = Return answer
       /\ result (data_get answer "messages" (VList [])) = Return messages
       /\ len messages = Return total
       /\ env !! "results" = Some (VList results)
       /\ env !! "total" = Some (VInt total)
       /\ Z.of_nat (List.length results) = Z.min total (Z.max 1 (Z.min 100 n))
       /\ Z.of_nat (List.length results) <= Z.max 1 (Z.min 100 n)
       /\ (1 <= n -> Z.of_nat (List.length results) <= n))
  /\
  (exists emails,
     result (Gmail.gmail_read_emails (Sample.world_connected Sample.inbox) 2 "INBOX" false)
     = Return {[ "success" := VBool true; "emails" := VList emails; "total" := VInt 3 ]}
     /\ List.length emails = 2%nat).
Proof.
  split; [|split].
  - intros n label unread_only env out Hout Hs. subst out.
    unfold Gmail.gmail_read_emails in *. cbv zeta in *.
    set (m := Z.max 1 (Z.min 100 n)) in *.
    apply after_gate_success_inv in Hout as (ts & tg & E & Hrest & Htrace); [|by rewrite Hs].
    rewrite Htrace. clear Htrace.
    apply try_except_inv in Hrest as [H Htry]; [|by rewrite Hs]. rewrite Htry. clear Htry.
    bind_step H as u Himport T0. bind_step H as answer Hcall T1. rewrite T0, T1.
    apply client_execute_action_inv in Hcall as (ts' & action & [= <-] & _ & Hexec & Hcall).
    rewrite Hcall. bind_step H as successful Hsuccessful T2.
    destruct (truthy successful).
    2: { bind_step H as err Herr T3. injection H as <-. by rewrite lookup_singleton_ne in Hs. }
    bind_step H as messages Hmessages T3. bind_step H as items Hitems T4.
    bind_step H as entries Hentries T5. bind_step H as total Htotal T6. injection H as <-.
    apply lift_inv in Hitems, Htotal.
    eexists ts, action, _, answer, messages, entries, total.
    split; [apply elem_of_app; right; apply elem_of_app; right;
            apply elem_of_app; left; apply list_elem_of_here|].
    split; [exact Hexec|]. split; [exact Hmessages|]. split; [exact Htotal|].
    split; [by simplify_map_eq|]. split; [by simplify_map_eq|].
    pose proof (listing_length Gmail.read_entry messages m total items entries
                  read_entry_str) as Hlen.
    rewrite Hlen; [lia|lia|done..].
  - intros query n env out Hout Hs. subst out.
    unfold Gmail.gmail_search_emails in *. cbv zeta in *.
    set (m := Z.max 1 (Z.min 100 n)) in *.
    destruct (str_truthy query); cbn [negb] in *.
    2: { injection Hout as <-. by rewrite lookup_singleton_ne in Hs. }
    apply after_gate_success_inv in Hout as (ts & tg & E & Hrest & Htrace); [|by rewrite Hs].
    rewrite Htrace. clear Htrace.
    apply try_except_inv in Hrest as [H Htry]; [|by rewrite Hs]. rewrite Htry. clear Htry.
    bind_step H as u Himport T0. bind_step H as answer Hcall T1. rewrite T0, T1.
    apply client_execute_action_inv in Hcall as (ts' & action & [= <-] & _ & Hexec & Hcall).
    rewrite Hcall. bind_step H as successful Hsuccessful T2.
    destruct (truthy successful).
    2: { bind_step H as err Herr T3. injection H as <-. by rewrite lookup_singleton_ne in Hs. }
    bind_step H as messages Hmessages T3. bind_step H as items Hitems T4.
    bind_step H as entries Hentries T5. bind_step H as total Htotal T6. injection H as <-.
    apply lift_inv in Hitems, Htotal.
    eexists ts, action, _, answer, messages, entries, total.
    split; [apply elem_of_app; right; apply elem_of_app; right;
            apply elem_of_app; left; apply list_elem_of_here|].
    split; [exact Hexec|]. split; [exact Hmessages|]. split; [exact Htotal|].
    split; [by simplify_map_eq|]. split; [by simplify_map_eq|].
    pose proof (listing_length Gmail.search_entry messages m total items entries
                  search_entry_str) as Hlen.
    rewrite Hlen; [lia|lia|done..].
  - eexists. split; [vm_compute; reflexivity|reflexivity].
Qed.

Lemma listing_truncated_total_untruncated_witness :
  exists ts action params answer messages emails total,
    ExecuteAction action params ∈
      trace (Gmail.gmail_read_emails (Sample.world_connected Sample.inbox) 2 "INBOX" false)
    /\ execute_action (Sample.world_connected Sample.inbox) ts action params = Return answer
    /\ result (data_get answer "messages" (VList [])) = Return messages
    /\ len messages = Return total
    /\ ({[ "success" := VBool true;
           "emails" := VList [ VDict {[ "id" := VStr "m1"; "thread_id" := VNone;
                                        "from" := VNone; "to" := VNone; "subject" := VNone;
                                        "snippet" := VNone; "date" := VNone;
                                        "is_unread" := VBool false ]};
                               VDict {[ "id" := VStr "m2"; "thread_id" := VNone;
                                        "from" := VNone; "to" := VNone; "subject" := VNone;
                                        "snippet" := VNone; "date" := VNone;
                                        "is_unread" := VBool false ]} ];
           "total" := VInt 3 ]} : envelope) !! "emails" = Some (VList emails)
    /\ ({[ "success" := VBool true;
           "emails" := VList [ VDict {[ "id" := VStr "m1"; "thread_id" := VNone;
                                        "from" := VNone; "to" := VNone; "subject" := VNone;
                                        "snippet" := VNone; "date" := VNone;
                                        "is_unread" := VBool false ]};
                               VDict {[ "id" := VStr "m2"; "thread_id" := VNone;
                                        "from" := VNone; "to" := VNone; "subject" := VNone;
                                        "snippet" := VNone; "date" := VNone;
                                        "is_unread" := VBool false ]} ];
           "total" := VInt 3 ]} : envelope) !! "total" = Some (VInt total)
    /\ Z.of_nat (List.length emails) = Z.min total (Z.max 1 (Z.min 100 2))
    /\ Z.of_nat (List.length emails) <= Z.max 1 (Z.min 100 2)
    /\ (1 <= 2 -> Z.of_nat (List.length emails) <= 2).
Proof.
  apply (proj1 (listing_truncated_total_untruncated (Sample.world_connected Sample.inbox))
           2 "INBOX" false).
  - vm_compute. reflexivity.
  - reflexivity.
Defined.

(** ** The profile *)

(** C9: [linkedin_get_profile] returns the same fixed sample profile, with
    [success: true], for every argument and every world, and makes no
    call at all: no credential lookup, no gate, no remote call. *)
Theorem get_profile_is_constant (w : World) (profile_id : string) :
  invoke w (LinkedinGetProfile profile_id) = ([], Return LinkedIn.mock_profile)
  /\ LinkedIn.mock_profile !! "success" = Some (VBool true)
  /\ trace (invoke w (LinkedinGetProfile profile_id)) = [].
Proof. by repeat split. Qed.

(** * Further properties of the handlers and the gate *)

(** ** The form of a handler *)

Lemma well_shaped_error (v : value) : well_shaped {[ "error" := v ]}.
Proof. right. split; [by rewrite lookup_singleton_ne|]. rewrite lookup_singleton_eq. eauto. Qed.

Ltac shaped :=
  first
    [ left; split; by simplify_map_eq
    | right; split; [by simplify_map_eq|]; simplify_map_eq; eauto ].

Ltac shaped_step :=
  first
    [ apply yields_ret; shaped
    | apply yields_try; [|intros]
    | apply yields_bind; intros
    | match goal with
      | |- yields _ (if ?b then _ else _) => destruct b
      end ].

Ltac quiet_step :=
  first
    [ apply emits_ret
    | apply emits_lift
    | apply emits_vget
    | apply emits_data_get
    | apply emits_mapM; intros
    | apply emits_bind; [|intros]
    | match goal with
      | |- emits _ (if ?b then _ else _) => destruct b
      end ].

Ltac form_rejected_tac :=
  eapply form_rejected;
  [ cbn [validation_error];
    repeat match goal with
           | H : ?x = _ |- context [?x] => rewrite H
           end; reflexivity
  | unfold_handler; reflexivity ].

Ltac form_gated_tac :=
  eapply form_gated;
  [ cbn [validation_error];
    repeat match goal with
           | H : ?x = _ |- context [?x] => rewrite H
           end; reflexivity
  | reflexivity
  | reflexivity
  | unfold_handler; reflexivity
  | intros v; cbv beta;
    unfold Gmail.read_entry, Gmail.search_entry, LinkedIn.people_entry;
    cbv zeta; repeat quiet_step
  | intros v; cbv beta zeta; repeat shaped_step
  | intros d Hd; cbv beta; unfold vget, lift; cbn [Py.get];
    rewrite bind_return; cbv beta; rewrite Hd;
    rewrite ?bind_return; cbv beta;
    unfold remote_failure_envelope; cbn [fallback_error];
    first [reflexivity | destruct (_ || _)%bool; reflexivity]
  | intros v Hv; cbv beta; destruct v; try reflexivity; exfalso; by eapply Hv ].

Lemma invoke_form w c : handler_form w c.
Proof.
  destruct c.
  - destruct (str_truthy to) eqn:Hto; [|form_rejected_tac].
    destruct (str_truthy subject) eqn:Hsubject; [|form_rejected_tac].
    destruct (str_truthy body) eqn:Hbody; [|form_rejected_tac].
    form_gated_tac.
  - form_gated_tac.
  - destruct (str_truthy query) eqn:Hquery; [|form_rejected_tac]. form_gated_tac.
  - destruct (str_truthy to) eqn:Hto; [|form_rejected_tac].
    destruct (str_truthy subject) eqn:Hsubject; [|form_rejected_tac].
    form_gated_tac.
  - destruct (negb (str_truthy text) || (3000 <? Z.of_nat (String.length text)))%bool
      eqn:Htext; [form_rejected_tac|]. form_gated_tac.
  - eapply form_constant; [reflexivity|reflexivity|reflexivity|]. left. by split.
  - form_gated_tac.
  - destruct (str_truthy keywords) eqn:Hkeywords; [|form_rejected_tac]. form_gated_tac.
  - destruct (str_truthy recipient_id) eqn:Hrecipient; [|form_rejected_tac].
    destruct (negb (str_truthy message) || (8000 <? Z.of_nat (String.length message)))%bool
      eqn:Hmessage; [form_rejected_tac|]. form_gated_tac.
Qed.

(** X1: the validation of a handler comes before anything else and reads
    only the arguments: when it rejects them the handler returns the error
    envelope with that message and makes no call at all; when it accepts
    them the first thing the handler does is consult the Connection Gate. *)
Theorem validation_precedes_every_call (w : World) (c : tool_call) :
  (forall msg, validation_error c = Some msg ->
     invoke w c = ([], Return {[ "error" := VStr msg ]}))
  /\ (forall app, validation_error c = None -> app_of c = Some app ->
        exists t, trace (invoke w c) = EnsureConnection app :: t).
Proof.
  destruct (invoke_form w c) as [msg Hv Hi|env Hv Ha Hi _|app name k Hv Ha Hn Hi _ _ _ _].
  - split; [|congruence]. intros msg' Hm. congruence.
  - split; congruence.
  - split; [congruence|]. intros app' _ Happ. rewrite Ha in Happ. injection Happ as <-.
    rewrite Hi. apply after_gate_first_event.
Qed.

Lemma validation_precedes_every_call_witness :
  invoke Sample.world_not_connected
    (LinkedinSendMessage "urn:li:person:42" (post_of_length (Z.to_nat 8001)))
  = ([], Return {[ "error" := VStr "Message must be 1-8000 characters" ]})
  /\ exists t, trace (invoke Sample.world_not_connected
                        (LinkedinSendMessage "urn:li:person:42"
                           (post_of_length (Z.to_nat 8000))))
               = EnsureConnection "LINKEDIN" :: t.
Proof.
  split.
  - apply (proj1 (validation_precedes_every_call Sample.world_not_connected
             (LinkedinSendMessage "urn:li:person:42" (post_of_length (Z.to_nat 8001))))).
    vm_compute. reflexivity.
  - apply (proj2 (validation_precedes_every_call Sample.world_not_connected
             (LinkedinSendMessage "urn:li:person:42" (post_of_length (Z.to_nat 8000))))).
    + vm_compute. reflexivity.
    + reflexivity.
Defined.

Lemma quiet_trace {A} (m : M A) : emits (fun _ => False) m -> trace m = [].
Proof.
  unfold emits. destruct (trace m) as [|ev t]; [done|]. by intros [[] _]%Forall_cons.
Qed.

(** The guarded block of a handler, step by step. *)
Section Guarded.

Variables (w : World) (name : string) (params : envelope) (prefix : string).
Variable k : value -> M envelope.
Hypothesis k_quiet : forall v, emits (fun _ => False) (k v).

Local Abbreviation block := (guarded w name params prefix k).

Lemma guarded_import_raises client e :
  import_Action w = Raise e ->
  block client = ([], Return {[ "error" := VStr (prefix +:+ exn_text e) ]}).
Proof. intros H. unfold guarded. by rewrite H. Qed.

Lemma guarded_member_raises ts e :
  import_Action w = Return tt ->
  Action_member w name = Raise e ->
  block (Some ts) = ([], Return {[ "error" := VStr (prefix +:+ exn_text e) ]}).
Proof. intros Hi Hm. unfold guarded, client_execute_action. by rewrite Hi, Hm. Qed.

Lemma guarded_execute_raises ts a e :
  import_Action w = Return tt ->
  Action_member w name = Return a ->
  execute_action w ts a params = Raise e ->
  block (Some ts)
  = ([ExecuteAction a params], Return {[ "error" := VStr (prefix +:+ exn_text e) ]}).
Proof. intros Hi Hm He. unfold guarded, client_execute_action. by rewrite Hi, Hm; simpl; rewrite He. Qed.

Lemma guarded_execute_returns ts a answer :
  import_Action w = Return tt ->
  Action_member w name = Return a ->
  execute_action w ts a params = Return answer ->
  block (Some ts)
  = ([ExecuteAction a params],
     result (try_except (k answer)
               (fun e => mret {[ "error" := VStr (prefix +:+ exn_text e) ]}))).
Proof.
  intros Hi Hm He. unfold guarded, client_execute_action. rewrite Hi, Hm. simpl. rewrite He.
  simpl. pose proof (quiet_trace _ (k_quiet answer)) as Hq.
  destruct (k answer) as [t [env|e]]; simpl in *; by subst t.
Qed.

Lemma guarded_trace client :
  trace (block client) = []
  \/ exists a, Action_member w name = Return a
               /\ trace (block client) = [ExecuteAction a params].
Proof.
  unfold guarded, client_execute_action, method.
  destruct (import_Action w) as [[]|e]; simpl; [|by left].
  destruct client as [ts|]; simpl; [|by left].
  destruct (Action_member w name) as [a|e] eqn:Hm; simpl; [|by left].
  right. exists a. split; [done|].
  destruct (execute_action w ts a params) as [answer|e]; simpl; [|done].
  pose proof (quiet_trace _ (k_quiet answer)) as Hq.
  destruct (k answer) as [t [env|e]]; simpl in *; by subst t.
Qed.

End Guarded.

(** The trace of a handler: the gate's calls, then at most the action. *)
Lemma invoke_trace_split w c :
  exists t_gate t_rest,
    trace (invoke w c) = t_gate ++ t_rest
    /\ Forall (fun ev => is_executeb ev = false) t_gate
    /\ (t_rest = []
        \/ exists name a, action_name c = Some name /\ Action_member w name = Return a
                          /\ t_rest = [ExecuteAction a (action_params c)]).
Proof.
  assert (Hgate : forall app tg r, _ensure_oauth_connection w app = (tg, r) ->
                    Forall (fun ev => is_executeb ev = false) tg).
  { intros app tg r E. pose proof (ensure_emits w app) as H. unfold emits, trace in H.
    rewrite E in H. simpl in H. eapply Forall_impl; [exact H|]. by intros []. }
  destruct (invoke_form w c) as [msg Hv Hi|env Hv Ha Hi _|app name k Hv Ha Hn Hi Hq _ _ _].
  1,2: exists [], []; rewrite Hi; split; [done|]; split; [constructor|by left].
  rewrite Hi.
  destruct (ensure_cases w app) as [tg [(e & E & He)|(client & er & E & Hg)]].
  { exists tg, []. rewrite (after_gate_raise _ _ _ _ _ E), app_nil_r.
    split; [done|]. split; [by eapply Hgate|by left]. }
  destruct er as [env|].
  { exists tg, []. rewrite (after_gate_error _ _ _ _ _ _ E), app_nil_r.
    split; [done|]. split; [by eapply Hgate|by left]. }
  eexists tg, _. rewrite (after_gate_ok _ _ _ _ _ E).
  split; [reflexivity|]. split; [by eapply Hgate|].
  destruct (guarded_trace w name (action_params c) (failure_prefix c) k Hq client)
    as [->|(a & Hm & ->)]; [by left|]. right. by exists name, a.
Qed.

Lemma executed_action w c a p :
  ExecuteAction a p ∈ trace (invoke w c) ->
  p = action_params c /\ validation_error c = None
  /\ exists name, action_name c = Some name /\ Action_member w name = Return a.
Proof.
  destruct (invoke_trace_split w c) as (tg & tr & Ht & Hg & Hr). rewrite Ht.
  intros [Hin|Hin]%elem_of_app.
  { rewrite Forall_forall in Hg. by apply Hg in Hin. }
  destruct Hr as [->|(name & a' & Hn & Hm & ->)]; [by apply elem_of_nil in Hin|].
  apply list_elem_of_singleton in Hin. injection Hin as -> ->. split; [done|].
  split; [|by exists name].
  destruct (invoke_form w c) as [msg Hv Hi|env Hv Ha Hi _|app nm k Hv Ha Hn' Hi _ _ _ _];
    [|done..].
  rewrite Hi in Ht. simpl in Ht. by destruct tg.
Qed.

Lemma filter_none {A} (f : A -> bool) (l : list A) :
  Forall (fun x => f x = false) l -> List.filter f l = [].
Proof. induction 1 as [|x l Hx _ IH]; simpl; [done|]. by rewrite Hx. Qed.

(** X2: no retries.  An invocation executes the remote action at most
    once, and when it does, the parameters are those built from the
    arguments and the action is the member of [Action] named in the handler. *)
Theorem at_most_one_action (w : World) (c : tool_call) :
  (List.length (List.filter is_executeb (trace (invoke w c))) <= 1)%nat
  /\ (forall a p, ExecuteAction a p ∈ trace (invoke w c) ->
        p = action_params c
        /\ exists name, action_name c = Some name /\ Action_member w name = Return a).
Proof.
  split.
  - destruct (invoke_trace_split w c) as (tg & tr & -> & Hg & Hr).
    rewrite List.filter_app, length_app, (filter_none _ _ Hg).
    destruct Hr as [->|(name & a & _ & _ & ->)]; simpl; lia.
  - intros a p Hin. apply executed_action in Hin as (-> & _ & H). by split.
Qed.

Lemma at_most_one_action_witness :
  ({[ "recipient_id" := VStr "urn:li:person:42"; "message" := VStr "Hello" ]} : envelope)
  = action_params (LinkedinSendMessage "urn:li:person:42" "Hello")
  /\ exists name, action_name (LinkedinSendMessage "urn:li:person:42" "Hello") = Some name
       /\ Action_member (Sample.world_connected Sample.sent) name
          = Return "LINKEDIN_SEND_MESSAGE".
Proof.
  apply (proj2 (at_most_one_action (Sample.world_connected Sample.sent)
                  (LinkedinSendMessage "urn:li:person:42" "Hello"))).
  vm_compute. by repeat constructor.
Defined.

(** ** After the gate has let the handler through *)

(** A gated handler whose gate has let it through. *)
Lemma invoke_gated w c app name tg ts :
  validation_error c = None ->
  app_of c = Some app ->
  action_name c = Some name ->
  _ensure_oauth_connection w app = (tg, Return (Some ts, None)) ->
  exists k,
    invoke w c
    = (tg ++ trace (guarded w name (action_params c) (failure_prefix c) k (Some ts)),
       result (guarded w name (action_params c) (failure_prefix c) k (Some ts)))
    /\ (forall v, emits (fun _ => False) (k v))
    /\ (forall d, truthy (default VNone (d !! "successful")) = false ->
                  k (VDict d) = mret (remote_failure_envelope w c d))
    /\ (forall v, (forall d, v <> VDict d) -> k v = lift (Raise (AttributeError v "get"))).
Proof.
  intros Hv Ha Hn E.
  destruct (invoke_form w c) as [msg Hv' Hi|env Hv' Ha' Hi _|app' name' k Hv' Ha' Hn' Hi Hq _ Hf Hd];
    [congruence..|].
  rewrite Ha in Ha'. injection Ha' as <-. rewrite Hn in Hn'. injection Hn' as <-.
  exists k. rewrite Hi, (after_gate_ok _ _ _ _ _ E). by repeat split.
Qed.

(** A handler whose arguments pass the validation, and which has an
    application, starts by consulting the gate. *)
Lemma invoke_first_event w c app :
  validation_error c = None ->
  app_of c = Some app ->
  exists t, trace (invoke w c) = EnsureConnection app :: t.
Proof.
  intros Hv Ha.
  destruct (invoke_form w c) as [msg Hv' Hi|env Hv' Ha' Hi _|app' name k Hv' Ha' Hn Hi _ _ _ _];
    [congruence..|].
  rewrite Ha in Ha'. injection Ha' as <-. rewrite Hi. apply after_gate_first_event.
Qed.

(** Past the gate, with [Action] imported and its member found, the action
    is executed, whatever it then answers. *)
Lemma invoke_executes w c app name a tg ts :
  validation_error c = None ->
  app_of c = Some app ->
  action_name c = Some name ->
  _ensure_oauth_connection w app = (tg, Return (Some ts, None)) ->
  import_Action w = Return tt ->
  Action_member w name = Return a ->
  trace (invoke w c) = tg ++ [ExecuteAction a (action_params c)].
Proof.
  intros Hv Ha Hn E Hi Hm.
  destruct (invoke_gated w c app name tg ts Hv Ha Hn E) as (k & -> & Hq & _ & _).
  unfold trace at 1. cbn [fst]. f_equal.
  destruct (execute_action w ts a (action_params c)) as [answer|e] eqn:He.
  - by rewrite (guarded_execute_returns _ _ _ _ k Hq ts a answer Hi Hm He).
  - by rewrite (guarded_execute_raises _ _ _ _ k ts a e Hi Hm He).
Qed.

(** X3: when [execute_action] raises, the handler returns the envelope
    [{error: "<prefix><text of the exception>"}] with its own prefix, after
    exactly one remote action. *)
Theorem remote_exception_enveloped (w : World) (c : tool_call) (app name a : string)
    (tg : list event) (ts : ComposioToolSet) (e : exn) :
  validation_error c = None ->
  app_of c = Some app ->
  action_name c = Some name ->
  _ensure_oauth_connection w app = (tg, Return (Some ts, None)) ->
  import_Action w = Return tt ->
  Action_member w name = Return a ->
  execute_action w ts a (action_params c) = Raise e ->
  invoke w c
  = (tg ++ [ExecuteAction a (action_params c)],
     Return {[ "error" := VStr (failure_prefix c +:+ exn_text e) ]}).
Proof.
  intros Hv Ha Hn E Hi Hm He.
  destruct (invoke_gated w c app name tg ts Hv Ha Hn E) as (k & -> & Hq & _ & _).
  by rewrite (guarded_execute_raises _ _ _ _ k ts a e Hi Hm He).
Qed.

Lemma remote_exception_enveloped_witness :
  invoke (Scenario.answering (Raise (Exn "Read timed out")))
    (GmailCreateDraft "ada@example.org" "Minutes" EmptyString EmptyString EmptyString)
  = (Scenario.tg_gmail ++
       [ExecuteAction "GMAIL_CREATE_EMAIL_DRAFT"
          (action_params (GmailCreateDraft "ada@example.org" "Minutes"
                            EmptyString EmptyString EmptyString))],
     Return {[ "error" := VStr "Gmail draft creation failed: Read timed out" ]}).
Proof.
  apply (remote_exception_enveloped (Scenario.answering (Raise (Exn "Read timed out")))
           (GmailCreateDraft "ada@example.org" "Minutes" EmptyString EmptyString EmptyString)
           "GMAIL" "GMAIL_CREATE_EMAIL_DRAFT" "GMAIL_CREATE_EMAIL_DRAFT"
           Scenario.tg_gmail Scenario.handle (Exn "Read timed out")).
  all: reflexivity.
Defined.

(** X4: when [from composio import Action] raises, or [Action] lacks the
    member, the handler returns the prefixed error envelope and executes no
    remote action. *)
Theorem action_lookup_failure_enveloped (w : World) (c : tool_call) (app name : string)
    (tg : list event) (ts : ComposioToolSet) (e : exn) :
  validation_error c = None ->
  app_of c = Some app ->
  action_name c = Some name ->
  _ensure_oauth_connection w app = (tg, Return (Some ts, None)) ->
  import_Action w = Raise e
  \/ (import_Action w = Return tt /\ Action_member w name = Raise e) ->
  invoke w c = (tg, Return {[ "error" := VStr (failure_prefix c +:+ exn_text e) ]}).
Proof.
  intros Hv Ha Hn E H.
  destruct (invoke_gated w c app name tg ts Hv Ha Hn E) as (k & -> & Hq & _ & _).
  destruct H as [Hi|[Hi Hm]].
  - by rewrite (guarded_import_raises _ _ _ _ k _ e Hi), app_nil_r.
  - by rewrite (guarded_member_raises _ _ _ _ k ts e Hi Hm), app_nil_r.
Qed.

Lemma action_lookup_failure_enveloped_witness :
  invoke Scenario.without_action (LinkedinCreatePost "hello" "PUBLIC")
  = (Scenario.tg_linkedin,
     Return {[ "error" :=
       VStr "LinkedIn post failed: cannot import name 'Action' from 'composio'" ]}).
Proof.
  apply (action_lookup_failure_enveloped Scenario.without_action
           (LinkedinCreatePost "hello" "PUBLIC") "LINKEDIN" "LINKEDIN_CREATE_LINKED_IN_POST"
           Scenario.tg_linkedin Scenario.handle
           (Exn "cannot import name 'Action' from 'composio'")).
  - reflexivity.
  - reflexivity.
  - reflexivity.
  - reflexivity.
  - left. reflexivity.
Defined.

(** X5: when the remote answer is a dict whose [successful] is missing or
    falsy, every handler but [linkedin_get_company] returns
    [{error: <the answer's error>}], and the handler's own fallback text
    when the answer has no [error] key. *)
Theorem remote_failure_reported (w : World) (c : tool_call) (app name a : string)
    (tg : list event) (ts : ComposioToolSet) (d : envelope) :
  validation_error c = None ->
  app_of c = Some app ->
  action_name c = Some name ->
  _ensure_oauth_connection w app = (tg, Return (Some ts, None)) ->
  import_Action w = Return tt ->
  Action_member w name = Return a ->
  execute_action w ts a (action_params c) = Return (VDict d) ->
  truthy (default VNone (d !! "successful")) = false ->
  tool_name c <> "linkedin_get_company" ->
  result (invoke w c)
  = Return {[ "error" := default (VStr (fallback_error c)) (d !! "error") ]}.
Proof.
  intros Hv Ha Hn E Hi Hm He Hs Hc.
  destruct (invoke_gated w c app name tg ts Hv Ha Hn E) as (k & -> & Hq & Hf & _).
  rewrite (guarded_execute_returns _ _ _ _ k Hq ts a _ Hi Hm He). unfold result at 1.
  cbn [snd]. rewrite (Hf d Hs). by destruct c.
Qed.

Lemma remote_failure_reported_witness :
  result (invoke (Scenario.answering (Return (VDict {[ "successful" := VBool false ]})))
            (GmailSearchEmails "is:starred" 5))
  = Return {[ "error" := VStr "Failed to search emails" ]}.
Proof.
  refine (remote_failure_reported
           (Scenario.answering (Return (VDict {[ "successful" := VBool false ]})))
           (GmailSearchEmails "is:starred" 5) "GMAIL" "GMAIL_FETCH_EMAILS"
           "GMAIL_FETCH_EMAILS" Scenario.tg_gmail Scenario.handle
           {[ "successful" := VBool false ]} _ _ _ _ _ _ _ _ _).
  all: try reflexivity.
  discriminate.
Defined.

(** X6: a remote answer that is not a dict ([None], a list, a string, ...)
    does not crash the handler: [result.get] raises inside the [try] and the
    envelope carries the prefixed AttributeError text. *)
Theorem non_dict_answer_enveloped (w : World) (c : tool_call) (app name a : string)
    (tg : list event) (ts : ComposioToolSet) (v : value) :
  validation_error c = None ->
  app_of c = Some app ->
  action_name c = Some name ->
  _ensure_oauth_connection w app = (tg, Return (Some ts, None)) ->
  import_Action w = Return tt ->
  Action_member w name = Return a ->
  execute_action w ts a (action_params c) = Return v ->
  (forall d, v <> VDict d) ->
  result (invoke w c)
  = Return {[ "error" := VStr (failure_prefix c +:+ "'" +:+ type_name v
                               +:+ "' object has no attribute 'get'") ]}.
Proof.
  intros Hv Ha Hn E Hi Hm He Hnd.
  destruct (invoke_gated w c app name tg ts Hv Ha Hn E) as (k & -> & Hq & _ & Hd).
  rewrite (guarded_execute_returns _ _ _ _ k Hq ts a _ Hi Hm He). unfold result at 1.
  cbn [snd]. by rewrite (Hd v Hnd).
Qed.

Lemma non_dict_answer_enveloped_witness :
  result (invoke (Scenario.answering (Return VNone)) (LinkedinGetCompany "ADMINISTRATOR"))
  = Return {[ "error" :=
      VStr "LinkedIn company fetch failed: 'NoneType' object has no attribute 'get'" ]}.
Proof.
  apply (non_dict_answer_enveloped (Scenario.answering (Return VNone))
           (LinkedinGetCompany "ADMINISTRATOR") "LINKEDIN" "LINKEDIN_GET_COMPANY_INFO"
           "LINKEDIN_GET_COMPANY_INFO" Scenario.tg_linkedin Scenario.handle VNone).
  all: try reflexivity.
  discriminate.
Defined.

(** X7: every envelope a handler returns is a success or an error, never
    both and never neither: either [success] is [True] and there is no
    [error] key, or there is an [error] key and no [success] key. *)
Theorem envelope_well_shaped (w : World) (c : tool_call) (env : envelope) :
  result (invoke w c) = Return env -> well_shaped env.
Proof.
  intros Hr.
  destruct (invoke_form w c) as [msg Hv Hi|env' Hv Ha Hi Hw|app name k Hv Ha Hn Hi _ Hy _ _].
  - rewrite Hi in Hr. injection Hr as <-. apply well_shaped_error.
  - rewrite Hi in Hr. by injection Hr as <-.
  - rewrite Hi in Hr.
    destruct (ensure_cases w app) as [tg [(e & E & He)|(client & er & E & Hg)]].
    { by rewrite (after_gate_raise _ _ _ _ _ E) in Hr. }
    destruct er as [env'|].
    + rewrite (after_gate_error _ _ _ _ _ _ E) in Hr. injection Hr as <-.
      right. split; [by eapply gate_case_no_success|].
      apply gate_case_truthy in Hg as [_ [s ->]]. eauto.
    + rewrite (after_gate_ok _ _ _ _ _ E) in Hr. revert Hr. unfold result at 1. cbn [snd].
      revert env. change (yields well_shaped
        (guarded w name (action_params c) (failure_prefix c) k client)).
      apply yields_try; [|intros; apply yields_ret, well_shaped_error].
      apply yields_bind. intros _. apply yields_bind. intros v. apply Hy.
Qed.

Lemma envelope_well_shaped_witness :
  well_shaped {[ "success" := VBool true;
                 "message_id" := VStr "abc123";
                 "thread_id" := VNone;
                 "message" := VStr "Email sent successfully" ]}.
Proof.
  apply (envelope_well_shaped (Sample.world_connected Sample.sent)
           (GmailSendEmail "ada@example.org" "Minutes" "See attached."
              EmptyString EmptyString)).
  reflexivity.
Defined.

(** ** More on the gate *)

(** X8: [_check_oauth_connection] never raises, whatever the client does;
    it returns one of the three tuples of its docstring, the error message
    always has the "Failed to check OAuth connection: " prefix, and its calls
    are an initial part of: [get_entity], [get_connection],
    [initiate_connection] with the fixed redirect URL. *)
Theorem check_total_and_bounded (w : World) (client : option ComposioToolSet)
    (app id : string) :
  exists t r,
    _check_oauth_connection w client app id = (t, Return r)
    /\ (reports r connected
        \/ (exists u, u <> EmptyString /\ reports r (not_connected u))
        \/ (exists msg, reports r (check_failed msg)
                        /\ exists e, msg = "Failed to check OAuth connection: " +:+ exn_text e))
    /\ t `prefix_of` [GetEntity id; GetConnection app;
                      InitiateConnection app "https://app.composio.dev/connections"].
Proof.
  unfold _check_oauth_connection, reports.
  destruct client as [c|]; simpl.
  - destruct (get_entity w c id) as [entity|e]; simpl.
    + destruct (get_connection w entity app) as [[[[s|]]|]|e]; simpl.
      all: try destruct (String.eqb s "ACTIVE"); simpl.
      all: try (eexists _, _; split; [reflexivity|]; split; [by left|];
                repeat first [apply prefix_nil|apply prefix_cons]).
      all: destruct (initiate_connection w entity app _) as [[[[|a u]|]]|e']; simpl.
      all: eexists _, _; split; [reflexivity|];
        split; [|repeat first [apply prefix_nil|apply prefix_cons]].
      all: right; left; eexists; split; [|reflexivity]; done.
    + eexists _, _; split; [reflexivity|].
      split; [|repeat first [apply prefix_nil|apply prefix_cons]].
      right; right. eexists; split; [reflexivity|]. by exists e.
  - eexists _, _; split; [reflexivity|]. split; [|apply prefix_nil].
    right; right. eexists; split; [reflexivity|].
    by exists (AttributeError VNone "get_entity").
Qed.

(** X9: the URL of a not-connected report is the [redirectUrl] of the
    connection request when there is a non-empty one; when the request has
    none, or [initiate_connection] raises, it is the dashboard link
    "https://app.composio.dev/app/" followed by the lower-cased application
    name. *)
Theorem oauth_url_or_dashboard (w : World) (ts : ComposioToolSet) (app : string)
    (entity : Entity) :
  get_entity w ts "default" = Return entity ->
  spec_active (found (get_connection w entity app)) = false ->
  let initiated :=
    initiate_connection w entity app "https://app.composio.dev/connections" in
  let check := _check_oauth_connection w (Some ts) app "default" in
  (forall req, initiated = Return req -> opt_str_truthy (redirectUrl req) = true ->
     result check = Return (false, redirectUrl req, None))
  /\ (forall req, initiated = Return req -> opt_str_truthy (redirectUrl req) = false ->
     result check
     = Return (false, Some ("https://app.composio.dev/app/" +:+ lower app), None))
  /\ (forall e, initiated = Raise e ->
     result check
     = Return (false, Some ("https://app.composio.dev/app/" +:+ lower app), None)).
Proof.
  intros He Hna initiated check. subst initiated check.
  unfold _check_oauth_connection. simpl. rewrite He. simpl.
  destruct (get_connection w entity app) as [[[[s|]]|]|e]; simpl in *; try discriminate.
  1: rewrite Hna; simpl.
  all: repeat split.
  all: intros x Hx; rewrite Hx; simpl; try done.
  all: by intros ->.
Qed.

Lemma oauth_url_or_dashboard_witness :
  result (_check_oauth_connection Scenario.initiation_fails (Some Scenario.handle)
            "LINKEDIN" "default")
  = Return (false, Some "https://app.composio.dev/app/linkedin", None).
Proof.
  apply (proj2 (proj2 (oauth_url_or_dashboard Scenario.initiation_fails Scenario.handle
                  "LINKEDIN" Sample.default_entity eq_refl eq_refl))
           (Exn "500 Internal Server Error")).
  reflexivity.
Defined.

Lemma invoke_gate_error w c app tg client env :
  validation_error c = None ->
  app_of c = Some app ->
  _ensure_oauth_connection w app = (tg, Return (client, Some env)) ->
  invoke w c = (tg, Return env).
Proof.
  intros Hv Ha E.
  destruct (invoke_form w c) as [msg Hv' Hi|env' Hv' Ha' Hi _|app' name k Hv' Ha' Hn Hi _ _ _ _];
    [congruence..|].
  rewrite Ha in Ha'. injection Ha' as <-. rewrite Hi. by eapply after_gate_error.
Qed.

(** X10: a key that is missing or empty.  With the SDK installed, when the
    lookup of the key ([credentials.get("composio")] if a credential source
    was injected, [os.getenv] otherwise) answers [None] or the empty string,
    the handler returns the "COMPOSIO_API_KEY not set" envelope after that one
    lookup: no client is constructed, and an injected source without the key
    is not backed up by the environment variable. *)
Theorem missing_key_envelope (w : World) (c : tool_call) (app : string)
    (key : option string) :
  validation_error c = None ->
  app_of c = Some app ->
  composio_installed w = true ->
  resolve_key w = Return key ->
  opt_str_truthy key = false ->
  invoke w c
  = ([EnsureConnection app; lookup_event w],
     Return {[ "error" :=
       VStr "COMPOSIO_API_KEY not set. Get one at https://app.composio.dev/settings" ]}).
Proof.
  intros Hv Ha Hi Hk Hf. eapply invoke_gate_error; [done..|].
  unfold _ensure_oauth_connection, _get_composio_client, resolve_key, lookup_event in *.
  rewrite Hi. simpl. destruct (credentials w) as [cm|]; simpl.
  - rewrite Hk. simpl. rewrite Hf. reflexivity.
  - injection Hk as ->. rewrite Hf. reflexivity.
Qed.

Lemma missing_key_envelope_witness :
  invoke Scenario.empty_store_key_in_env (GmailReadEmails 10 "INBOX" false)
  = ([EnsureConnection "GMAIL"; CredentialsGet "composio"],
     Return {[ "error" :=
       VStr "COMPOSIO_API_KEY not set. Get one at https://app.composio.dev/settings" ]}).
Proof.
  apply (missing_key_envelope Scenario.empty_store_key_in_env
           (GmailReadEmails 10 "INBOX" false) "GMAIL" None).
  all: reflexivity.
Defined.

(** X11: without the Composio SDK every gated handler returns the
    "Composio SDK not installed" envelope and does nothing else: no credential
    lookup, no remote call. *)
Theorem sdk_missing_envelope (w : World) (c : tool_call) (app : string) :
  validation_error c = None ->
  app_of c = Some app ->
  composio_installed w = false ->
  invoke w c
  = ([EnsureConnection app],
     Return {[ "error" :=
       VStr "Composio SDK not installed. Run: pip install composio-core" ]}).
Proof.
  intros Hv Ha Hi. eapply invoke_gate_error; [done..|].
  unfold _ensure_oauth_connection, _get_composio_client. rewrite Hi. reflexivity.
Qed.

Lemma sdk_missing_envelope_witness :
  invoke Scenario.without_sdk (LinkedinSearchPeople "rocq" 10)
  = ([EnsureConnection "LINKEDIN"],
     Return {[ "error" :=
       VStr "Composio SDK not installed. Run: pip install composio-core" ]}).
Proof.
  apply (sdk_missing_envelope Scenario.without_sdk (LinkedinSearchPeople "rocq" 10)
           "LINKEDIN").
  all: reflexivity.
Defined.

(** [String.prefix] and [contains] are what they should be. *)
Lemma append_cons a s t : String a s +:+ t = String a (s +:+ t).
Proof. reflexivity. Qed.

Lemma append_nil t : EmptyString +:+ t = t.
Proof. reflexivity. Qed.

Lemma prefix_spec n h : String.prefix n h = true <-> exists post, h = n +:+ post.
Proof.
  revert h. induction n as [|a n IH]; intros h.
  - destruct h; simpl; split; eauto.
  - destruct h as [|b h]; simpl.
    { split; [done|]. intros [post H]. by rewrite append_cons in H. }
    destruct (Ascii.ascii_dec a b) as [->|Hne].
    + rewrite IH. split; intros [post H]; exists post; rewrite append_cons in *; congruence.
    + split; [done|]. intros [post H]. rewrite append_cons in H. congruence.
Qed.

Lemma contains_spec n h :
  contains n h = true <-> exists pre post, h = pre +:+ n +:+ post.
Proof.
  induction h as [|b h IH].
  - cbn [contains]. rewrite prefix_spec. split.
    + intros [post H]. by exists EmptyString, post.
    + intros (pre & post & H). destruct pre; [by exists post|by rewrite append_cons in H].
  - cbn [contains]. rewrite orb_true_iff, prefix_spec, IH. split.
    + intros [[post H]|(pre & post & H)].
      * by exists EmptyString, post.
      * exists (String b pre), post. by rewrite append_cons, H.
    + intros (pre & post & H). destruct pre as [|a pre].
      * left. by exists post.
      * right. rewrite append_cons in H. injection H as -> ->. by exists pre, post.
Qed.

(** ** Permission errors, registration *)

(** X15: [linkedin_get_company] replaces a remote error text that contains
    "403" or "Forbidden" anywhere by the permission-denied envelope with its
    [suggestion]; any other error text is passed through unchanged. *)
Theorem company_permission_denied (w : World) (role a s : string)
    (tg : list event) (ts : ComposioToolSet) (d : envelope) :
  _ensure_oauth_connection w "LINKEDIN" = (tg, Return (Some ts, None)) ->
  import_Action w = Return tt ->
  Action_member w "LINKEDIN_GET_COMPANY_INFO" = Return a ->
  execute_action w ts a (action_params (LinkedinGetCompany role)) = Return (VDict d) ->
  truthy (default VNone (d !! "successful")) = false ->
  d !! "error" = Some (VStr s) ->
  builtin_str w (VStr s) = s ->
  let denied := (exists pre post, s = pre +:+ "403" +:+ post)
                \/ (exists pre post, s = pre +:+ "Forbidden" +:+ post) in
  (denied ->
   result (LinkedIn.linkedin_get_company w role)
   = Return {[ "error" := VStr "Permission denied. You may not have admin access to any LinkedIn company pages.";
               "suggestion" := VStr "Ensure you have ADMINISTRATOR or DIRECT_SPONSORED_CONTENT_POSTER role on a company page." ]})
  /\ (~ denied ->
      result (LinkedIn.linkedin_get_company w role) = Return {[ "error" := VStr s ]}).
Proof.
  intros E Hi Hm He Hs Herr Hstr denied.
  destruct (invoke_gated w (LinkedinGetCompany role) "LINKEDIN" "LINKEDIN_GET_COMPANY_INFO"
              tg ts eq_refl eq_refl eq_refl E) as (k & Hinv & Hq & Hf & _).
  cbn [invoke] in Hinv. rewrite Hinv.
  rewrite (guarded_execute_returns _ _ _ _ k Hq ts a _ Hi Hm He). unfold result at 1 3.
  cbn [snd]. rewrite (Hf d Hs). unfold remote_failure_envelope. rewrite Herr. cbn [default from_option id].
  rewrite Hstr.
  assert (Hd : (contains "403" s || contains "Forbidden" s)%bool = true <-> denied).
  { unfold denied. by rewrite orb_true_iff, !contains_spec. }
  destruct (contains "403" s || contains "Forbidden" s)%bool.
  - split; [done|]. intros Hn. destruct Hn. by apply Hd.
  - split; [|done]. intros H. apply Hd in H. discriminate.
Qed.

Lemma company_permission_denied_witness :
  result (LinkedIn.linkedin_get_company
            (Scenario.answering (Return (VDict {[ "successful" := VBool false;
                                                  "error" := VStr "HTTP 403 Forbidden" ]})))
            "ADMINISTRATOR")
  = Return {[ "error" := VStr "Permission denied. You may not have admin access to any LinkedIn company pages.";
              "suggestion" := VStr "Ensure you have ADMINISTRATOR or DIRECT_SPONSORED_CONTENT_POSTER role on a company page." ]}.
Proof.
  refine (proj1 (company_permission_denied
           (Scenario.answering (Return (VDict {[ "successful" := VBool false;
                                                 "error" := VStr "HTTP 403 Forbidden" ]})))
           "ADMINISTRATOR" "LINKEDIN_GET_COMPANY_INFO" "HTTP 403 Forbidden"
           Scenario.tg_linkedin Scenario.handle
           {[ "successful" := VBool false; "error" := VStr "HTTP 403 Forbidden" ]}
           _ _ _ _ _ _ _) _).
  1-7: reflexivity.
  left. by exists "HTTP ", " Forbidden".
Defined.

(** X16: what the package's [register_tools] reports.  Every name it
    returns is registered, all nine handlers are registered and nothing else
    is added to the server, but the returned list leaves out exactly one
    registered tool, [linkedin_get_company]. *)
Theorem register_tools_reports (mcp : list string) :
  let registered := (register_tools mcp).1 in
  let names := (register_tools mcp).2 in
  (forall n, n ∈ names -> n ∈ registered)
  /\ (forall c, tool_name c ∈ registered)
  /\ (forall n, n ∈ registered -> n ∈ mcp \/ exists c, tool_name c = n)
  /\ (forall c, tool_name c ∈ names <-> tool_name c <> "linkedin_get_company").
Proof.
  intros registered names. subst registered names.
  unfold register_tools, register_gmail_tools, register_linkedin_tools, mcp_tool.
  cbn [fst snd]. repeat split.
  - intros n Hn. rewrite !elem_of_app, !list_elem_of_singleton.
    rewrite !elem_of_cons, elem_of_nil in Hn. tauto.
  - intros c. rewrite !elem_of_app, !list_elem_of_singleton. destruct c; simpl; tauto.
  - intros n. rewrite !elem_of_app, !list_elem_of_singleton.
    intros [[[[[[[[[H|H]|H]|H]|H]|H]|H]|H]|H]|H]; [by left|right; subst n..].
    + by exists (LinkedinCreatePost EmptyString EmptyString).
    + by exists (LinkedinGetProfile EmptyString).
    + by exists (LinkedinGetCompany EmptyString).
    + by exists (LinkedinSearchPeople EmptyString 0).
    + by exists (LinkedinSendMessage EmptyString EmptyString).
    + by exists (GmailSendEmail EmptyString EmptyString EmptyString EmptyString EmptyString).
    + by exists (GmailReadEmails 0 EmptyString false).
    + by exists (GmailSearchEmails EmptyString 0).
    + by exists (GmailCreateDraft EmptyString EmptyString EmptyString EmptyString EmptyString).
  - destruct c; simpl; intros H; try done.
    rewrite !elem_of_cons, elem_of_nil in H. intuition discriminate.
  - destruct c; simpl; intros H; try done; rewrite !elem_of_cons; tauto.
Qed.

Lemma register_tools_reports_witness :
  "gmail_send_email" ∈ (register_tools []).1.
Proof.
  apply (proj1 (register_tools_reports [])). vm_compute. by repeat constructor.
Defined.

(** ** Successful answers *)

Lemma mapM_items (entry : value -> M value) (item : envelope -> value) (ds : list envelope) :
  (forall msg, entry (VDict msg) = mret (item msg)) ->
  mapM entry (VDict <$> ds) = mret (item <$> ds).
Proof.
  intros He. induction ds as [|msg ds IH]; [done|].
  cbn [fmap list_fmap mapM].
  rewrite He. 
  change (mret (item msg) ≫= (fun y => mapM entry (VDict <$> ds) ≫= fun k => mret (y :: k))
          = mret (item msg :: (item <$> ds))).
  rewrite IH. reflexivity.
Qed.

Lemma mapM_items_broken (entry : value -> M value) (item : envelope -> value)
    (ds : list envelope) (v : value) (rest : list value) :
  (forall msg, entry (VDict msg) = mret (item msg)) ->
  entry v = lift (Raise (AttributeError v "get")) ->
  mapM entry ((VDict <$> ds) ++ v :: rest) = lift (Raise (AttributeError v "get")).
Proof.
  intros He Hv. induction ds as [|msg ds IH].
  - cbn [fmap list_fmap app mapM]. by rewrite Hv.
  - cbn [fmap list_fmap app mapM].
    change (entry (VDict msg) ≫= (fun y => mapM entry ((VDict <$> ds) ++ v :: rest)
                                           ≫= fun k => mret (y :: k))
            = lift (Raise (AttributeError v "get"))).
    rewrite He, IH. reflexivity.
Qed.

Lemma read_entry_item msg : Gmail.read_entry (VDict msg) = mret (read_item msg).
Proof. reflexivity. Qed.

Lemma search_entry_item msg : Gmail.search_entry (VDict msg) = mret (search_item msg).
Proof. reflexivity. Qed.

Lemma people_entry_item p : LinkedIn.people_entry (VDict p) = mret (people_item p).
Proof. reflexivity. Qed.

Lemma entry_not_dict (v : value) :
  (forall d, v <> VDict d) ->
  Gmail.read_entry v = lift (Raise (AttributeError v "get"))
  /\ Gmail.search_entry v = lift (Raise (AttributeError v "get"))
  /\ LinkedIn.people_entry v = lift (Raise (AttributeError v "get")).
Proof. intros H. destruct v; try done. exfalso. by eapply H. Qed.

(** C8: [gmail_read_emails] clamps [max_results] into the range 1 to 100
    before anything else, and works with the clamped value from then on.
    No value is rejected: for every [max_results] the handler consults the
    gate, and once the gate lets it through and the action is found, it
    executes the fetch with [max_results] set to the clamped value (100 for
    500, 1 for 0) and cuts the list of the answer to the clamped value.  It
    behaves on [max_results] exactly as on the clamped value, and never
    sends other parameters. *)
Theorem read_emails_clamps_max_results
    (w : World) (n : Z) (label : string) (unread_only : bool) :
  let read := fun m => Gmail.gmail_read_emails w m label unread_only in
  let sent := fun m : Z =>
    let params : envelope :=
      {[ "max_results" := VInt m; "label_ids" := VList [VStr label] ]} in
    if unread_only then <[ "query" := VStr "is:unread" ]> params else params in
  (1 <= spec_clamp n <= 100 /\ spec_clamp 500 = 100 /\ spec_clamp 0 = 1
   /\ (1 <= n <= 100 -> spec_clamp n = n))
  /\ (read n = read (spec_clamp n) /\ read 500 = read 100 /\ read 0 = read 1)
  /\ (exists t, trace (read n) = EnsureConnection "GMAIL" :: t)
  /\ (forall tg ts a,
        _ensure_oauth_connection w "GMAIL" = (tg, Return (Some ts, None)) ->
        import_Action w = Return tt ->
        Action_member w "GMAIL_FETCH_EMAILS" = Return a ->
        trace (read n) = tg ++ [ExecuteAction a (sent (spec_clamp n))]
        /\ (forall d data l ds,
              execute_action w ts a (sent (spec_clamp n)) = Return (VDict d) ->
              truthy (default VNone (d !! "successful")) = true ->
              default (VDict ∅) (d !! "data") = VDict data ->
              default (VList []) (data !! "messages") = VList l ->
              take (Z.to_nat (spec_clamp n)) l = VDict <$> ds ->
              result (read n)
              = Return {[ "success" := VBool true;
                          "emails" := VList (read_item <$> ds);
                          "total" := VInt (Z.of_nat (List.length l)) ]}))
  /\ (forall action params,
        ExecuteAction action params ∈ trace (read n) -> params = sent (spec_clamp n)).
Proof.
  intros read sent. subst read.
  assert (Hc : Z.max 1 (Z.min 100 n) = spec_clamp n).
  { unfold spec_clamp. repeat case_match; lia. }
  assert (Hp : action_params (GmailReadEmails n label unread_only) = sent (spec_clamp n)).
  { cbn [action_params]. cbv zeta. by rewrite Hc. }
  destruct (read_emails_clamp_equations w n label unread_only)
    as (Hrange & Hsame & H500 & H0 & Hfirst & _).
  split; [|split; [|split; [|split]]].
  - split; [exact Hrange|]. split; [reflexivity|]. split; [reflexivity|].
    intros Hn. unfold spec_clamp. repeat case_match; lia.
  - by repeat split.
  - exact Hfirst.
  - intros tg ts a E Hi Hm. split.
    + rewrite <- Hp.
      by apply (invoke_executes w (GmailReadEmails n label unread_only) "GMAIL"
                  "GMAIL_FETCH_EMAILS" a tg ts).
    + intros d data l ds He Hs Hdata Hmsgs Hcut.
      rewrite <- Hp in He. rewrite <- Hc in Hcut.
      unfold Gmail.gmail_read_emails. cbv zeta. unfold Gmail.GMAIL_APP_NAME.
      rewrite (after_gate_ok _ _ _ _ _ E). unfold result at 1. cbn [snd].
      unfold client_execute_action, method. rewrite Hi, Hm. simpl.
      cbn [action_params] in He. cbv zeta in He. rewrite He. simpl.
      rewrite Hs. unfold data_get, vget. simpl. rewrite Hdata. simpl. rewrite Hmsgs. simpl.
      unfold take_upto. assert ((Z.max 1 (Z.min 100 n) <? 0) = false) as -> by lia.
      rewrite Hcut, (mapM_items _ _ _ read_entry_item). reflexivity.
  - intros action params Hin. rewrite <- Hp.
    by apply (executed_action w (GmailReadEmails n label unread_only)) in Hin as (-> & _ & _).
Qed.

Lemma read_emails_clamps_max_results_witness :
  (trace (Gmail.gmail_read_emails (Sample.world_connected Sample.inbox) 500 "INBOX" false)
   = Scenario.tg_gmail
     ++ [ExecuteAction "GMAIL_FETCH_EMAILS"
           {[ "max_results" := VInt 100; "label_ids" := VList [VStr "INBOX"] ]}])
  /\
  (trace (Gmail.gmail_read_emails (Sample.world_connected Sample.inbox) 0 "INBOX" true)
   = Scenario.tg_gmail
     ++ [ExecuteAction "GMAIL_FETCH_EMAILS"
           (<[ "query" := VStr "is:unread" ]>
              {[ "max_results" := VInt 1; "label_ids" := VList [VStr "INBOX"] ]})])
  /\
  (result (Gmail.gmail_read_emails (Sample.world_connected Sample.inbox) 0 "INBOX" true)
   = Return {[ "success" := VBool true;
               "emails" := VList (read_item <$> [ {[ "id" := VStr "m1" ]} ]);
               "total" := VInt (Z.of_nat (List.length
                  [ VDict {[ "id" := VStr "m1" ]}; VDict {[ "id" := VStr "m2" ]};
                    VDict {[ "id" := VStr "m3" ]} ])) ]}).
Proof.
  split; [|split].
  - refine (proj1 (proj1 (proj2 (proj2 (proj2 (read_emails_clamps_max_results
              (Sample.world_connected Sample.inbox) 500 "INBOX" false))))
              Scenario.tg_gmail Scenario.handle "GMAIL_FETCH_EMAILS" _ _ _)).
    all: reflexivity.
  - refine (proj1 (proj1 (proj2 (proj2 (proj2 (read_emails_clamps_max_results
              (Sample.world_connected Sample.inbox) 0 "INBOX" true))))
              Scenario.tg_gmail Scenario.handle "GMAIL_FETCH_EMAILS" _ _ _)).
    all: reflexivity.
  - refine (proj2 (proj1 (proj2 (proj2 (proj2 (read_emails_clamps_max_results
              (Sample.world_connected Sample.inbox) 0 "INBOX" true))))
              Scenario.tg_gmail Scenario.handle "GMAIL_FETCH_EMAILS" _ _ _)
              _ _ _ [ {[ "id" := VStr "m1" ]} ] _ _ _ _ _).
    all: reflexivity.
Defined.

(** X17: [gmail_read_emails] on a successful answer returns one entry per
    message among the first [max_results] (after the clamp), each with the
    eight documented keys ([None] for a missing field, [False] for a missing
    [isUnread]), and [total] is the length of the whole list; a missing [data]
    or [messages] key counts as an empty list, and what lies beyond the cut
    is never inspected. *)
Theorem read_emails_success (w : World) (n : Z) (label : string) (unread_only : bool)
    (a : string) (tg : list event) (ts : ComposioToolSet)
    (d data : envelope) (l : list value) (ds : list envelope) :
  _ensure_oauth_connection w "GMAIL" = (tg, Return (Some ts, None)) ->
  import_Action w = Return tt ->
  Action_member w "GMAIL_FETCH_EMAILS" = Return a ->
  execute_action w ts a (action_params (GmailReadEmails n label unread_only))
    = Return (VDict d) ->
  truthy (default VNone (d !! "successful")) = true ->
  default (VDict ∅) (d !! "data") = VDict data ->
  default (VList []) (data !! "messages") = VList l ->
  take (Z.to_nat (Z.max 1 (Z.min 100 n))) l = VDict <$> ds ->
  result (Gmail.gmail_read_emails w n label unread_only)
  = Return {[ "success" := VBool true;
              "emails" := VList (read_item <$> ds);
              "total" := VInt (Z.of_nat (List.length l)) ]}.
Proof.
  intros E Hi Hm He Hs Hdata Hmsgs Hcut.
  unfold Gmail.gmail_read_emails. cbv zeta. unfold Gmail.GMAIL_APP_NAME.
  rewrite (after_gate_ok _ _ _ _ _ E). unfold result at 1. cbn [snd].
  unfold client_execute_action, method. rewrite Hi, Hm. simpl.
  cbn [action_params] in He. cbv zeta in He. rewrite He. simpl.
  rewrite Hs. unfold data_get, vget. simpl. rewrite Hdata. simpl. rewrite Hmsgs. simpl.
  unfold take_upto. assert ((Z.max 1 (Z.min 100 n) <? 0) = false) as -> by lia.
  rewrite Hcut, (mapM_items _ _ _ read_entry_item). reflexivity.
Qed.

Lemma read_emails_success_witness :
  result (Gmail.gmail_read_emails (Sample.world_connected Sample.inbox) 2 "INBOX" false)
  = Return {[ "success" := VBool true;
              "emails" := VList (read_item <$> [ {[ "id" := VStr "m1" ]};
                                                 {[ "id" := VStr "m2" ]} ]);
              "total" := VInt (Z.of_nat (List.length
                 [ VDict {[ "id" := VStr "m1" ]}; VDict {[ "id" := VStr "m2" ]};
                   VDict {[ "id" := VStr "m3" ]} ])) ]}.
Proof.
  refine (read_emails_success (Sample.world_connected Sample.inbox) 2 "INBOX" false
            "GMAIL_FETCH_EMAILS" Scenario.tg_gmail Scenario.handle _ _ _ _
            _ _ _ _ _ _ _ _).
  all: reflexivity.
Defined.

(** X18: a message that is not a dict among the first [max_results] makes
    [gmail_read_emails] return the "Gmail read failed" envelope instead of a
    partial list. *)
Theorem read_emails_malformed_entry (w : World) (n : Z) (label : string)
    (unread_only : bool) (a : string) (tg : list event) (ts : ComposioToolSet)
    (d data : envelope) (l rest : list value) (ds : list envelope) (v : value) :
  _ensure_oauth_connection w "GMAIL" = (tg, Return (Some ts, None)) ->
  import_Action w = Return tt ->
  Action_member w "GMAIL_FETCH_EMAILS" = Return a ->
  execute_action w ts a (action_params (GmailReadEmails n label unread_only))
    = Return (VDict d) ->
  truthy (default VNone (d !! "successful")) = true ->
  default (VDict ∅) (d !! "data") = VDict data ->
  default (VList []) (data !! "messages") = VList l ->
  take (Z.to_nat (Z.max 1 (Z.min 100 n))) l = (VDict <$> ds) ++ v :: rest ->
  (forall msg, v <> VDict msg) ->
  result (Gmail.gmail_read_emails w n label unread_only)
  = Return {[ "error" := VStr ("Gmail read failed: '" +:+ type_name v
                               +:+ "' object has no attribute 'get'") ]}.
Proof.
  intros E Hi Hm He Hs Hdata Hmsgs Hcut Hv.
  unfold Gmail.gmail_read_emails. cbv zeta. unfold Gmail.GMAIL_APP_NAME.
  rewrite (after_gate_ok _ _ _ _ _ E). unfold result at 1. cbn [snd].
  unfold client_execute_action, method. rewrite Hi, Hm. simpl.
  cbn [action_params] in He. cbv zeta in He. rewrite He. simpl.
  rewrite Hs. unfold data_get, vget. simpl. rewrite Hdata. simpl. rewrite Hmsgs. simpl.
  unfold take_upto. assert ((Z.max 1 (Z.min 100 n) <? 0) = false) as -> by lia.
  rewrite Hcut, (mapM_items_broken _ _ _ _ _ read_entry_item (proj1 (entry_not_dict v Hv))).
  reflexivity.
Qed.

Lemma read_emails_malformed_entry_witness :
  result (Gmail.gmail_read_emails
            (Scenario.answering (Return (VDict
               {[ "successful" := VBool true;
                  "data" := VDict {[ "messages" := VList
                     [ VDict {[ "id" := VStr "m1" ]}; VStr "m2" ] ]} ]})))
            10 "INBOX" false)
  = Return {[ "error" := VStr ("Gmail read failed: '" +:+ type_name (VStr "m2")
                               +:+ "' object has no attribute 'get'") ]}.
Proof.
  refine (read_emails_malformed_entry _ 10 "INBOX" false
            "GMAIL_FETCH_EMAILS" Scenario.tg_gmail Scenario.handle _ _ _ []
            [ {[ "id" := VStr "m1" ]} ] (VStr "m2") _ _ _ _ _ _ _ _ _).
  all: try reflexivity.
  discriminate.
Defined.

(** X19: [gmail_search_emails] on a successful answer returns one entry per
    message among the first [max_results], with the seven documented keys,
    [total] as the length of the whole list, and the query echoed back. *)
Theorem search_emails_success (w : World) (query : string) (n : Z)
    (a : string) (tg : list event) (ts : ComposioToolSet)
    (d data : envelope) (l : list value) (ds : list envelope) :
  query <> EmptyString ->
  _ensure_oauth_connection w "GMAIL" = (tg, Return (Some ts, None)) ->
  import_Action w = Return tt ->
  Action_member w "GMAIL_FETCH_EMAILS" = Return a ->
  execute_action w ts a (action_params (GmailSearchEmails query n)) = Return (VDict d) ->
  truthy (default VNone (d !! "successful")) = true ->
  default (VDict ∅) (d !! "data") = VDict data ->
  default (VList []) (data !! "messages") = VList l ->
  take (Z.to_nat (Z.max 1 (Z.min 100 n))) l = VDict <$> ds ->
  result (Gmail.gmail_search_emails w query n)
  = Return {[ "success" := VBool true;
              "results" := VList (search_item <$> ds);
              "total" := VInt (Z.of_nat (List.length l));
              "query" := VStr query ]}.
Proof.
  intros Hq E Hi Hm He Hs Hdata Hmsgs Hcut.
  unfold Gmail.gmail_search_emails. rewrite (str_truthy_nonempty _ Hq). cbn [negb].
  cbv zeta. unfold Gmail.GMAIL_APP_NAME.
  rewrite (after_gate_ok _ _ _ _ _ E). unfold result at 1. cbn [snd].
  unfold client_execute_action, method. rewrite Hi, Hm. simpl.
  cbn [action_params] in He. cbv zeta in He. rewrite He. simpl.
  rewrite Hs. unfold data_get, vget. simpl. rewrite Hdata. simpl. rewrite Hmsgs. simpl.
  unfold take_upto. assert ((Z.max 1 (Z.min 100 n) <? 0) = false) as -> by lia.
  rewrite Hcut, (mapM_items _ _ _ search_entry_item). reflexivity.
Qed.

Lemma search_emails_success_witness :
  result (Gmail.gmail_search_emails (Sample.world_connected Sample.inbox) "is:starred" 500)
  = Return {[ "success" := VBool true;
              "results" := VList (search_item <$> [ {[ "id" := VStr "m1" ]};
                                                    {[ "id" := VStr "m2" ]};
                                                    {[ "id" := VStr "m3" ]} ]);
              "total" := VInt (Z.of_nat (List.length
                 [ VDict {[ "id" := VStr "m1" ]}; VDict {[ "id" := VStr "m2" ]};
                   VDict {[ "id" := VStr "m3" ]} ]));
              "query" := VStr "is:starred" ]}.
Proof.
  refine (search_emails_success (Sample.world_connected Sample.inbox) "is:starred" 500
            "GMAIL_FETCH_EMAILS" Scenario.tg_gmail Scenario.handle _ _ _ _
            _ _ _ _ _ _ _ _ _).
  all: try reflexivity.
  discriminate.
Defined.

(** X20: [linkedin_search_people] on a successful answer returns one entry
    per person among the first [limit] (after the clamp into 1 to 50), with
    the keys [name], [headline] and [profile_url], and [total] as the length
    of the whole list; at most 50 entries are returned. *)
Theorem search_people_success (w : World) (keywords : string) (limit : Z)
    (a : string) (tg : list event) (ts : ComposioToolSet)
    (d data : envelope) (l : list value) (ps : list envelope) :
  keywords <> EmptyString ->
  _ensure_oauth_connection w "LINKEDIN" = (tg, Return (Some ts, None)) ->
  import_Action w = Return tt ->
  Action_member w "LINKEDIN_SEARCH_PEOPLE" = Return a ->
  execute_action w ts a (action_params (LinkedinSearchPeople keywords limit))
    = Return (VDict d) ->
  truthy (default VNone (d !! "successful")) = true ->
  default (VDict ∅) (d !! "data") = VDict data ->
  default (VList []) (data !! "elements") = VList l ->
  take (Z.to_nat (Z.max 1 (Z.min 50 limit))) l = VDict <$> ps ->
  result (LinkedIn.linkedin_search_people w keywords limit)
  = Return {[ "success" := VBool true;
              "results" := VList (people_item <$> ps);
              "total" := VInt (Z.of_nat (List.length l)) ]}
  /\ (List.length ps <= 50)%nat.
Proof.
  intros Hq E Hi Hm He Hs Hdata Hmsgs Hcut. split.
  - unfold LinkedIn.linkedin_search_people. rewrite (str_truthy_nonempty _ Hq). cbn [negb].
    cbv zeta. unfold LinkedIn.LINKEDIN_APP_NAME.
    rewrite (after_gate_ok _ _ _ _ _ E). unfold result at 1. cbn [snd].
    unfold client_execute_action, method. rewrite Hi, Hm. simpl.
    cbn [action_params] in He. cbv zeta in He. rewrite He. simpl.
    rewrite Hs. unfold data_get, vget. simpl. rewrite Hdata. simpl. rewrite Hmsgs. simpl.
    unfold take_upto. assert ((Z.max 1 (Z.min 50 limit) <? 0) = false) as -> by lia.
    rewrite Hcut, (mapM_items _ _ _ people_entry_item). reflexivity.
  - apply (f_equal List.length) in Hcut. rewrite length_take, length_fmap in Hcut. lia.
Qed.

Lemma search_people_success_witness :
  result (LinkedIn.linkedin_search_people
            (Scenario.answering (Return (VDict
               {[ "successful" := VBool true;
                  "data" := VDict {[ "elements" := VList
                     [ VDict {[ "name" := VStr "Ada" ]};
                       VDict {[ "name" := VStr "Grace" ]} ] ]} ]})))
            "engineer" 1)
  = Return {[ "success" := VBool true;
              "results" := VList (people_item <$> [ {[ "name" := VStr "Ada" ]} ]);
              "total" := VInt (Z.of_nat (List.length
                 [ VDict {[ "name" := VStr "Ada" ]};
                   VDict {[ "name" := VStr "Grace" ]} ])) ]}
  /\ (List.length [ ({[ "name" := VStr "Ada" ]} : envelope) ] <= 50)%nat.
Proof.
  refine (search_people_success _ "engineer" 1
            "LINKEDIN_SEARCH_PEOPLE" Scenario.tg_linkedin Scenario.handle _ _ _ _
            _ _ _ _ _ _ _ _ _).
  all: try reflexivity.
  discriminate.
Defined.

(** X21: [gmail_send_email] on a successful answer returns the [id] and
    [threadId] of [data], each [None] when absent (also when [data] itself
    is absent); a [data] that is present but [None] gives the "Gmail send
    failed" envelope. *)
Theorem send_email_success (w : World) (to subject body cc bcc : string)
    (a : string) (tg : list event) (ts : ComposioToolSet) (d data : envelope) :
  to <> EmptyString -> subject <> EmptyString -> body <> EmptyString ->
  _ensure_oauth_connection w "GMAIL" = (tg, Return (Some ts, None)) ->
  import_Action w = Return tt ->
  Action_member w "GMAIL_SEND_EMAIL" = Return a ->
  execute_action w ts a (action_params (GmailSendEmail to subject body cc bcc))
    = Return (VDict d) ->
  truthy (default VNone (d !! "successful")) = true ->
  (default (VDict ∅) (d !! "data") = VDict data ->
   result (Gmail.gmail_send_email w to subject body cc bcc)
   = Return {[ "success" := VBool true;
               "message_id" := default VNone (data !! "id");
               "thread_id" := default VNone (data !! "threadId");
               "message" := VStr "Email sent successfully" ]})
  /\ (d !! "data" = Some VNone ->
      result (Gmail.gmail_send_email w to subject body cc bcc)
      = Return {[ "error" :=
          VStr "Gmail send failed: 'NoneType' object has no attribute 'get'" ]}).
Proof.
  intros Hto Hsubject Hbody E Hi Hm He Hs.
  unfold Gmail.gmail_send_email. rewrite !str_truthy_nonempty by done. cbn [negb].
  unfold Gmail.GMAIL_APP_NAME.
  rewrite (after_gate_ok _ _ _ _ _ E). unfold result at 1 3. cbn [snd].
  unfold client_execute_action, method. rewrite Hi, Hm. simpl.
  cbn [action_params] in He. cbv zeta in He. rewrite He. simpl.
  rewrite Hs. unfold data_get, vget. simpl. split.
  - intros Hdata. rewrite Hdata. reflexivity.
  - intros Hdata. rewrite Hdata. reflexivity.
Qed.

Lemma send_email_success_witness :
  result (Gmail.gmail_send_email
            (Scenario.answering (Return (VDict {[ "successful" := VBool true;
                                                  "data" := VNone ]})))
            "ada@example.org" "Minutes" "See attached." EmptyString EmptyString)
  = Return {[ "error" :=
      VStr "Gmail send failed: 'NoneType' object has no attribute 'get'" ]}.
Proof.
  refine (proj2 (send_email_success _ "ada@example.org" "Minutes" "See attached."
            EmptyString EmptyString "GMAIL_SEND_EMAIL" Scenario.tg_gmail Scenario.handle
            {[ "successful" := VBool true; "data" := VNone ]} ∅
            _ _ _ _ _ _ _ _) _).
  all: try reflexivity.
  all: discriminate.
Defined.

Lemma dict_truthy_nonempty (d : envelope) : d <> ∅ -> dict_truthy d = true.
Proof.
  intros H. unfold dict_truthy. destruct (size d) eqn:E; [|done].
  by apply map_size_empty_iff in E.
Qed.

(** X22: the organizations of [linkedin_get_company].  A [data] dict with
    an [elements] list gives that list, a [data] list gives itself, a missing
    [data] gives the empty list, any other non-empty dict is wrapped in a
    one-element list; [count] is the length of the list.  An [elements] that
    has no length gives the "LinkedIn company fetch failed" envelope. *)
Theorem company_organizations (w : World) (role a : string)
    (tg : list event) (ts : ComposioToolSet) (d : envelope) :
  _ensure_oauth_connection w "LINKEDIN" = (tg, Return (Some ts, None)) ->
  import_Action w = Return tt ->
  Action_member w "LINKEDIN_GET_COMPANY_INFO" = Return a ->
  execute_action w ts a (action_params (LinkedinGetCompany role)) = Return (VDict d) ->
  truthy (default VNone (d !! "successful")) = true ->
  let out := result (LinkedIn.linkedin_get_company w role) in
  let listed (orgs : list value) : outcome envelope :=
    Return {[ "success" := VBool true;
              "organizations" := VList orgs;
              "count" := VInt (Z.of_nat (List.length orgs)) ]} in
  (forall data es, d !! "data" = Some (VDict data) ->
     data !! "elements" = Some (VList es) -> out = listed es)
  /\ (forall es, d !! "data" = Some (VList es) -> out = listed es)
  /\ (d !! "data" = None -> out = listed [])
  /\ (forall data, d !! "data" = Some (VDict data) -> data !! "elements" = None ->
        data <> ∅ -> out = listed [VDict data])
  /\ (forall data x, d !! "data" = Some (VDict data) ->
        data !! "elements" = Some (VInt x) ->
        out = Return {[ "error" :=
          VStr "LinkedIn company fetch failed: object of type 'int' has no len()" ]}).
Proof.
  intros E Hi Hm He Hs out listed. subst out listed.
  unfold LinkedIn.linkedin_get_company. cbv zeta. unfold LinkedIn.LINKEDIN_APP_NAME.
  rewrite (after_gate_ok _ _ _ _ _ E). unfold result. cbn [snd].
  unfold client_execute_action, method. rewrite Hi, Hm. simpl.
  cbn [action_params] in He. cbv zeta in He. simpl in He. rewrite He. simpl.
  rewrite Hs. unfold vget. simpl. repeat split.
  - intros data es -> Hel. simpl. by rewrite Hel.
  - by intros es ->.
  - by intros ->.
  - intros data -> Hel Hne. simpl. rewrite Hel, (dict_truthy_nonempty _ Hne). reflexivity.
  - intros data x -> Hel. simpl. by rewrite Hel.
Qed.

Lemma company_organizations_witness :
  result (LinkedIn.linkedin_get_company
            (Scenario.answering (Return (VDict
               {[ "successful" := VBool true;
                  "data" := VDict {[ "name" := VStr "Aden" ]} ]})))
            "ADMINISTRATOR")
  = Return {[ "success" := VBool true;
              "organizations" := VList [ VDict {[ "name" := VStr "Aden" ]} ];
              "count" := VInt (Z.of_nat (List.length
                                           [ VDict {[ "name" := VStr "Aden" ]} ])) ]}.
Proof.
  refine (proj1 (proj2 (proj2 (proj2 (company_organizations _ "ADMINISTRATOR"
            "LINKEDIN_GET_COMPANY_INFO" Scenario.tg_linkedin Scenario.handle
            {[ "successful" := VBool true; "data" := VDict {[ "name" := VStr "Aden" ]} ]}
            _ _ _ _ _)))) {[ "name" := VStr "Aden" ]} _ _ _).
  all: try reflexivity.
  intros H. apply (f_equal (fun m : envelope => m !! "name")) in H. discriminate.
Defined.

(** X23: [gmail_create_draft], [linkedin_create_post] and
    [linkedin_send_message] on a successful answer return the [id] of [data]
    ([None] when absent) under their own key, with their fixed note. *)
Theorem id_of_created_item (w : World) (c : tool_call) (app name a key note : string)
    (tg : list event) (ts : ComposioToolSet) (d data : envelope) :
  id_reply c = Some (key, note) ->
  validation_error c = None ->
  app_of c = Some app ->
  action_name c = Some name ->
  _ensure_oauth_connection w app = (tg, Return (Some ts, None)) ->
  import_Action w = Return tt ->
  Action_member w name = Return a ->
  execute_action w ts a (action_params c) = Return (VDict d) ->
  truthy (default VNone (d !! "successful")) = true ->
  default (VDict ∅) (d !! "data") = VDict data ->
  result (invoke w c)
  = Return {[ "success" := VBool true;
              key := default VNone (data !! "id");
              "message" := VStr note ]}.
Proof.
  intros Hr Hv Ha Hn E Hi Hm He Hs Hdata.
  destruct c; try discriminate; injection Hr as <- <-; injection Ha as <-;
    injection Hn as <-; cbn [invoke validation_error] in *.
  - unfold Gmail.gmail_create_draft.
    destruct (negb (str_truthy to)); [discriminate|].
    destruct (negb (str_truthy subject)); [discriminate|].
    rewrite (after_gate_ok _ _ _ _ _ E). unfold result at 1. cbn [snd].
    unfold client_execute_action, method. rewrite Hi, Hm. simpl.
    cbn [action_params] in He. cbv zeta in He. rewrite He. simpl.
    rewrite Hs. unfold data_get, vget. simpl. by rewrite Hdata.
  - unfold LinkedIn.linkedin_create_post.
    destruct (negb (str_truthy text) || _)%bool; [discriminate|]. cbv zeta.
    rewrite (after_gate_ok _ _ _ _ _ E). unfold result at 1. cbn [snd].
    unfold client_execute_action, method. rewrite Hi, Hm. simpl.
    cbn [action_params] in He. cbv zeta in He. simpl in He. rewrite He. simpl.
    rewrite Hs. unfold data_get, vget. simpl. by rewrite Hdata.
  - unfold LinkedIn.linkedin_send_message.
    destruct (negb (str_truthy recipient_id)); [discriminate|].
    destruct (negb (str_truthy message) || _)%bool; [discriminate|].
    rewrite (after_gate_ok _ _ _ _ _ E). unfold result at 1. cbn [snd].
    unfold client_execute_action, method. rewrite Hi, Hm. simpl.
    cbn [action_params] in He. rewrite He. simpl.
    rewrite Hs. unfold data_get, vget. simpl. by rewrite Hdata.
Qed.

Lemma id_of_created_item_witness :
  result (invoke (Sample.world_connected Sample.sent)
            (LinkedinCreatePost "hello" "PUBLIC"))
  = Return {[ "success" := VBool true;
              "post_id" := default VNone
                 (({[ "id" := VStr "abc123" ]} : envelope) !! "id");
              "message" := VStr "Post created successfully" ]}.
Proof.
  refine (id_of_created_item (Sample.world_connected Sample.sent)
            (LinkedinCreatePost "hello" "PUBLIC") "LINKEDIN"
            "LINKEDIN_CREATE_LINKED_IN_POST" "LINKEDIN_CREATE_LINKED_IN_POST"
            "post_id" "Post created successfully" Scenario.tg_linkedin Scenario.handle
            _ {[ "id" := VStr "abc123" ]} _ _ _ _ _ _ _ _ _ _).
  all: reflexivity.
Defined.

Lemma str_in_spec x l : LinkedIn.str_in x l = true <-> x ∈ l.
Proof.
  unfold LinkedIn.str_in. induction l as [|y l IH]; simpl.
  - split; [done|by intros ?%elem_of_nil].
  - rewrite orb_true_iff, IH, elem_of_cons, String.eqb_eq. done.
Qed.

(** X24: arguments from a fixed set are coerced, not rejected.
    [linkedin_create_post] with a text of 1 to 3000 characters behaves, for
    every visibility, exactly as it does for the coerced one - the argument
    when it is PUBLIC, CONNECTIONS or LOGGED_IN, PUBLIC otherwise: it
    consults the gate, and once the gate lets it through and the action is
    found it executes the action with the text and the coerced visibility.
    [linkedin_get_company] does the same for every role, the coerced role
    being the argument when it is ADMINISTRATOR or
    DIRECT_SPONSORED_CONTENT_POSTER and ADMINISTRATOR otherwise, always with
    state APPROVED and count 100.  Nothing else is ever sent. *)
Theorem enumerated_arguments_coerced (w : World) :
  (forall text visibility,
     (1 <= String.length text <= 3000)%nat ->
     let allowed := ["PUBLIC"; "CONNECTIONS"; "LOGGED_IN"] in
     let post := LinkedIn.linkedin_create_post w text in
     exists v,
       v ∈ allowed
       /\ (visibility ∈ allowed -> v = visibility)
       /\ (visibility ∉ allowed -> v = "PUBLIC")
       /\ post visibility = post v
       /\ (exists t, trace (post visibility) = EnsureConnection "LINKEDIN" :: t)
       /\ (forall tg ts a,
             _ensure_oauth_connection w "LINKEDIN" = (tg, Return (Some ts, None)) ->
             import_Action w = Return tt ->
             Action_member w "LINKEDIN_CREATE_LINKED_IN_POST" = Return a ->
             trace (post visibility)
             = tg ++ [ExecuteAction a {[ "text" := VStr text; "visibility" := VStr v ]}])
       /\ (forall a p,
             ExecuteAction a p ∈ trace (post visibility) ->
             p = {[ "text" := VStr text; "visibility" := VStr v ]}))
  /\
  (forall role,
     let allowed := ["ADMINISTRATOR"; "DIRECT_SPONSORED_CONTENT_POSTER"] in
     let company := LinkedIn.linkedin_get_company w in
     exists r,
       r ∈ allowed
       /\ (role ∈ allowed -> r = role)
       /\ (role ∉ allowed -> r = "ADMINISTRATOR")
       /\ company role = company r
       /\ (exists t, trace (company role) = EnsureConnection "LINKEDIN" :: t)
       /\ (forall tg ts a,
             _ensure_oauth_connection w "LINKEDIN" = (tg, Return (Some ts, None)) ->
             import_Action w = Return tt ->
             Action_member w "LINKEDIN_GET_COMPANY_INFO" = Return a ->
             trace (company role)
             = tg ++ [ExecuteAction a {[ "role" := VStr r; "state" := VStr "APPROVED";
                                         "count" := VInt 100 ]}])
       /\ (forall a p,
             ExecuteAction a p ∈ trace (company role) ->
             p = {[ "role" := VStr r; "state" := VStr "APPROVED"; "count" := VInt 100 ]})).
Proof.
  split.
  - intros text visibility Hlen allowed post. subst allowed post.
    assert (Hvalid : validation_error (LinkedinCreatePost text visibility) = None).
    { cbn [validation_error].
      assert (str_truthy text = true) as ->.
      { destruct text as [|ch rest]; [|done]. simpl in Hlen. lia. }
      assert ((3000 <? Z.of_nat (String.length text)) = false) as -> by lia. done. }
    set (v := if negb (LinkedIn.str_in visibility ["PUBLIC"; "CONNECTIONS"; "LOGGED_IN"])
              then "PUBLIC" else visibility).
    assert (Hp : action_params (LinkedinCreatePost text visibility)
                 = {[ "text" := VStr text; "visibility" := VStr v ]}) by reflexivity.
    exists v. split; [|split; [|split; [|split; [|split; [|split]]]]].
    + subst v. destruct (LinkedIn.str_in visibility _) eqn:Hv; cbn [negb].
      * by apply str_in_spec in Hv.
      * apply list_elem_of_here.
    + intros H. apply str_in_spec in H. subst v. by rewrite H.
    + intros H. subst v. destruct (LinkedIn.str_in visibility _) eqn:Hv; cbn [negb]; [|done].
      by apply str_in_spec in Hv.
    + subst v. destruct (LinkedIn.str_in visibility _) eqn:Hv; cbn [negb]; [done|].
      unfold LinkedIn.linkedin_create_post. cbv zeta. rewrite Hv. reflexivity.
    + apply (invoke_first_event w (LinkedinCreatePost text visibility) "LINKEDIN");
        [done|reflexivity].
    + intros tg ts a E Hi Hm. rewrite <- Hp.
      by apply (invoke_executes w (LinkedinCreatePost text visibility) "LINKEDIN"
                  "LINKEDIN_CREATE_LINKED_IN_POST" a tg ts).
    + intros a p Hin. rewrite <- Hp.
      by apply (executed_action w (LinkedinCreatePost text visibility)) in Hin as (-> & _ & _).
  - intros role allowed company. subst allowed company.
    set (r := if negb (LinkedIn.str_in role ["ADMINISTRATOR"; "DIRECT_SPONSORED_CONTENT_POSTER"])
              then "ADMINISTRATOR" else role).
    assert (Hp : action_params (LinkedinGetCompany role)
                 = {[ "role" := VStr r; "state" := VStr "APPROVED"; "count" := VInt 100 ]})
      by reflexivity.
    exists r. split; [|split; [|split; [|split; [|split; [|split]]]]].
    + subst r. destruct (LinkedIn.str_in role _) eqn:Hv; cbn [negb].
      * by apply str_in_spec in Hv.
      * apply list_elem_of_here.
    + intros H. apply str_in_spec in H. subst r. by rewrite H.
    + intros H. subst r. destruct (LinkedIn.str_in role _) eqn:Hv; cbn [negb]; [|done].
      by apply str_in_spec in Hv.
    + subst r. destruct (LinkedIn.str_in role _) eqn:Hv; cbn [negb]; [done|].
      unfold LinkedIn.linkedin_get_company. cbv zeta. rewrite Hv. reflexivity.
    + apply (invoke_first_event w (LinkedinGetCompany role) "LINKEDIN");
        [done|reflexivity].
    + intros tg ts a E Hi Hm. rewrite <- Hp.
      by apply (invoke_executes w (LinkedinGetCompany role) "LINKEDIN"
                  "LINKEDIN_GET_COMPANY_INFO" a tg ts).
    + intros a p Hin. rewrite <- Hp.
      by apply (executed_action w (LinkedinGetCompany role)) in Hin as (-> & _ & _).
Qed.

Lemma enumerated_arguments_coerced_witness :
  trace (LinkedIn.linkedin_create_post (Sample.world_connected Sample.sent) "hello" "BOGUS")
  = Scenario.tg_linkedin
    ++ [ExecuteAction "LINKEDIN_CREATE_LINKED_IN_POST"
          {[ "text" := VStr "hello"; "visibility" := VStr "PUBLIC" ]}].
Proof.
  assert (Hlen : (1 <= String.length "hello" <= 3000)%nat) by (simpl; lia).
  destruct (proj1 (enumerated_arguments_coerced (Sample.world_connected Sample.sent))
              "hello" "BOGUS" Hlen) as (v & _ & _ & Hno & _ & _ & Hsent & _).
  assert (Hv : v = "PUBLIC").
  { apply Hno. intros H. apply str_in_spec in H. vm_compute in H. discriminate. }
  rewrite <- Hv.
  apply (Hsent Scenario.tg_linkedin Scenario.handle "LINKEDIN_CREATE_LINKED_IN_POST").
  all: reflexivity.
Defined.

(** X25: [gmail_send_email] and [gmail_create_draft] send [to], [subject]
    and [body] as given (a draft may have an empty body), and send [cc] and
    [bcc] only when they are non-empty. *)
Theorem optional_recipients_sent_only_if_given (w : World)
    (to subject body cc bcc a : string) (p : envelope) :
  ExecuteAction a p ∈ trace (Gmail.gmail_send_email w to subject body cc bcc)
  \/ ExecuteAction a p ∈ trace (Gmail.gmail_create_draft w to subject body cc bcc) ->
  p !! "to" = Some (VStr to)
  /\ p !! "subject" = Some (VStr subject)
  /\ p !! "body" = Some (VStr body)
  /\ p !! "cc" = (if str_truthy cc then Some (VStr cc) else None)
  /\ p !! "bcc" = (if str_truthy bcc then Some (VStr bcc) else None)
  /\ to <> EmptyString /\ subject <> EmptyString.
Proof.
  intros [Hin|Hin].
  - apply (executed_action w (GmailSendEmail to subject body cc bcc)) in Hin
      as (-> & Hv & _).
    cbn [action_params validation_error] in *. cbv zeta.
    destruct to, subject; try discriminate.
    destruct (str_truthy cc), (str_truthy bcc); by simplify_map_eq.
  - apply (executed_action w (GmailCreateDraft to subject body cc bcc)) in Hin
      as (-> & Hv & _).
    cbn [action_params validation_error] in *. cbv zeta.
    destruct to, subject; try discriminate.
    destruct body; destruct (str_truthy cc), (str_truthy bcc); by simplify_map_eq.
Qed.

Lemma optional_recipients_sent_only_if_given_witness :
  let p : envelope :=
    {[ "to" := VStr "ada@example.org"; "subject" := VStr "Minutes";
       "body" := VStr EmptyString; "bcc" := VStr "grace@example.org" ]} in
  p !! "to" = Some (VStr "ada@example.org")
  /\ p !! "subject" = Some (VStr "Minutes")
  /\ p !! "body" = Some (VStr EmptyString)
  /\ p !! "cc" = (if str_truthy EmptyString then Some (VStr EmptyString) else None)
  /\ p !! "bcc" = (if str_truthy "grace@example.org"
                   then Some (VStr "grace@example.org") else None)
  /\ "ada@example.org" <> EmptyString /\ "Minutes" <> EmptyString.
Proof.
  apply (optional_recipients_sent_only_if_given (Sample.world_connected Sample.sent)
           "ada@example.org" "Minutes" EmptyString EmptyString "grace@example.org"
           "GMAIL_CREATE_EMAIL_DRAFT").
  right. vm_compute. by repeat constructor.
Defined.

(** X26: the limit [linkedin_search_people] sends is the argument brought
    into the range 1 to 50, and the keywords it sends are never empty. *)
Theorem search_people_limit_clamped (w : World) (keywords : string) (limit : Z)
    (a : string) (p : envelope) :
  ExecuteAction a p ∈ trace (LinkedIn.linkedin_search_people w keywords limit) ->
  exists m, p = {[ "keywords" := VStr keywords; "limit" := VInt m ]}
    /\ 1 <= m <= 50
    /\ (1 <= limit <= 50 -> m = limit)
    /\ (limit < 1 -> m = 1) /\ (50 < limit -> m = 50)
    /\ keywords <> EmptyString.
Proof.
  intros Hin.
  apply (executed_action w (LinkedinSearchPeople keywords limit)) in Hin as (-> & Hv & _).
  cbn [action_params validation_error] in *. cbv zeta.
  exists (Z.max 1 (Z.min 50 limit)). split; [done|].
  repeat split; try lia. by destruct keywords.
Qed.

Lemma search_people_limit_clamped_witness :
  exists m,
    ({[ "keywords" := VStr "engineer"; "limit" := VInt 50 ]} : envelope)
    = {[ "keywords" := VStr "engineer"; "limit" := VInt m ]}
    /\ 1 <= m <= 50
    /\ (1 <= 500 <= 50 -> m = 500)
    /\ (500 < 1 -> m = 1) /\ (50 < 500 -> m = 50)
    /\ "engineer" <> EmptyString.
Proof.
  apply (search_people_limit_clamped (Sample.world_connected Sample.sent)
           "engineer" 500 "LINKEDIN_SEARCH_PEOPLE").
  vm_compute. by repeat constructor.
Defined.

(** ** The credential declaration *)

Lemma get_client_looks_up w :
  composio_installed w = true ->
  exists t, trace (_get_composio_client w) = lookup_event w :: t.
Proof.
  intros Hi. unfold _get_composio_client, lookup_event. rewrite Hi. simpl.
  destruct (credentials w) as [cm|]; simpl.
  - destruct (cm_get cm "composio") as [[[|a k]|]|e]; simpl; eauto.
    destruct (new_toolset w _); simpl; eauto.
  - destruct (getenv w "COMPOSIO_API_KEY") as [[|a k]|]; simpl; eauto.
    destruct (new_toolset w _); simpl; eauto.
Qed.

Lemma get_client_lookups w ev :
  ev ∈ trace (_get_composio_client w) ->
  ev = lookup_event w \/ exists key, ev = NewToolSet key.
Proof.
  unfold _get_composio_client, lookup_event.
  destruct (composio_installed w); simpl; [|by intros ?%elem_of_nil].
  destruct (credentials w) as [cm|]; simpl.
  - destruct (cm_get cm "composio") as [[[|a k]|]|e]; simpl.
    2: destruct (new_toolset w _); simpl.
    all: rewrite ?elem_of_cons, elem_of_nil; intros H; intuition eauto.
  - destruct (getenv w "COMPOSIO_API_KEY") as [[|a k]|]; simpl.
    2: destruct (new_toolset w _); simpl.
    all: rewrite ?elem_of_cons, elem_of_nil; intros H; intuition eauto.
Qed.

Lemma ensure_looks_up w app :
  composio_installed w = true ->
  lookup_event w ∈ trace (_ensure_oauth_connection w app).
Proof.
  intros Hi. destruct (get_client_looks_up w Hi) as [t Ht].
  unfold _ensure_oauth_connection, trace in *.
  destruct (_get_composio_client w) as [t0 r0]. simpl in Ht. subst t0.
  match goal with |- context [mbind ?f (call ?ev ?o)] =>
    change (mbind f (call ev o)) with (mbind f ([ev], o)) end.
  rewrite bind_return. cbn [fst]. apply list_elem_of_further.
  destruct r0 as [[client error]|e]; [|apply list_elem_of_here].
  rewrite bind_return. cbn [fst]. apply list_elem_of_here.
Qed.

Lemma after_gate_contains w app rest ev :
  ev ∈ trace (_ensure_oauth_connection w app) -> ev ∈ trace (after_gate w app rest).
Proof.
  intros Hin.
  destruct (ensure_cases w app) as [tg [(e & E & He)|(client & er & E & Hg)]];
    rewrite E in Hin; simpl in Hin.
  - by rewrite (after_gate_raise _ _ _ _ _ E).
  - destruct er as [env|].
    + by rewrite (after_gate_error _ _ _ _ _ _ E).
    + rewrite (after_gate_ok _ _ _ _ _ E). simpl. apply elem_of_app. by left.
Qed.

(** X27: the credential declaration against the code.  The gate asks the
    credential source for the declared name and the environment for the
    declared variable, and the declared tools are the names [register_tools]
    returns.  But the declared tools are all handlers except
    [linkedin_get_company], while the handlers that look the key up (on
    valid arguments) are all except [linkedin_get_profile]. *)
Theorem credential_spec_and_its_users :
  exists spec,
    COMPOSIO_CREDENTIALS !! "composio" = Some spec
    /\ (forall w name, CredentialsGet name ∈ trace (_get_composio_client w) ->
          is_Some (COMPOSIO_CREDENTIALS !! name))
    /\ (forall w name, Getenv name ∈ trace (_get_composio_client w) ->
          name = env_var spec)
    /\ (forall mcp, (register_tools mcp).2 = tools spec)
    /\ (forall c, tool_name c ∈ tools spec <-> tool_name c <> "linkedin_get_company")
    /\ (forall w c, composio_installed w = true -> validation_error c = None ->
          (lookup_event w ∈ trace (invoke w c)
           <-> tool_name c <> "linkedin_get_profile")).
Proof.
  eexists. split; [reflexivity|]. repeat split.
  - intros w name Hin. apply get_client_lookups in Hin as [H|[key H]]; [|done].
    unfold lookup_event in H. destruct (credentials w); [|done]. injection H as ->. by eexists.
  - intros w name Hin. apply get_client_lookups in Hin as [H|[key H]]; [|done].
    unfold lookup_event in H. destruct (credentials w); [done|]. by injection H as ->.
  - cbn [tools]. destruct c; simpl; intros H; try done.
    rewrite !elem_of_cons, elem_of_nil in H. intuition discriminate.
  - cbn [tools]. destruct c; simpl; intros H; try done; rewrite !elem_of_cons; tauto.
  - intros Hin Hc.
    destruct (invoke_form w c) as [msg Hv Hi|env Hv Ha Hi _|app name k Hv Ha Hn Hi _ _ _ _].
    + congruence.
    + rewrite Hi in Hin. by apply elem_of_nil in Hin.
    + by destruct c.
  - intros Hc.
    destruct (invoke_form w c) as [msg Hv Hi|env Hv Ha Hi _|app name k Hv Ha Hn Hi _ _ _ _].
    + congruence.
    + by destruct c.
    + rewrite Hi. by apply after_gate_contains, ensure_looks_up.
Qed.

Lemma credential_spec_and_its_users_witness :
  lookup_event Sample.world_no_credential
    ∈ trace (invoke Sample.world_no_credential (LinkedinGetCompany "ADMINISTRATOR")).
Proof.
  destruct credential_spec_and_its_users as (spec & _ & _ & _ & _ & _ & H).
  apply (H Sample.world_no_credential (LinkedinGetCompany "ADMINISTRATOR")).
  - reflexivity.
  - reflexivity.
  - discriminate.
Defined.

(** ** Witnesses of lemmas proved above *)

Lemma oauth_required_only_when_not_connected_witness :
  exists app ts u,
    app_of (GmailReadEmails 10 "INBOX" false) = Some app
    /\ result (_get_composio_client Sample.world_not_connected) = Return (Some ts, None)
    /\ result (_check_oauth_connection Sample.world_not_connected (Some ts) app "default")
       = Return (false, Some u, None)
    /\ u <> EmptyString /\ VBool true = VBool true
    /\ oauth_envelope "GMAIL" (Some "https://backend.composio.dev/s/abc") !! "oauth_url"
       = Some (VStr u).
Proof.
  apply (oauth_required_only_when_not_connected Sample.world_not_connected
           (GmailReadEmails 10 "INBOX" false)
           (oauth_envelope "GMAIL" (Some "https://backend.composio.dev/s/abc"))
           (VBool true)).
  - reflexivity.
  - reflexivity.
Defined.

Lemma invoke_returns_when_client_returns_witness :
  returns (invoke Sample.world_check_fails (LinkedinGetCompany "ADMINISTRATOR")).
Proof.
  apply (invoke_returns_when_client_returns Sample.world_check_fails
           (LinkedinGetCompany "ADMINISTRATOR")).
  eexists. reflexivity.
Defined.

Lemma invoke_raises_when_client_raises_witness :
  result (invoke Sample.world_constructor_raises (GmailSearchEmails "is:starred" 5))
  = Raise (Exn "Invalid API key").
Proof.
  apply (invoke_raises_when_client_raises Sample.world_constructor_raises
           (GmailSearchEmails "is:starred" 5) "GMAIL" (Exn "Invalid API key")).
  - reflexivity.
  - vm_compute. by repeat constructor.
  - reflexivity.
Defined.
